(** * packaging/whl.py: wheel identity, metadata, dependencies and expansion

    A shallow embedding of the [Wheel] class of [packaging/whl.py] and the
    properties of it that the specification states.

    Conventions of the embedding.
    - A Python [str] is a [string]; a character is an [ascii].  Text is kept
      in its UTF-8 form, on which the byte-wise lexicographic order is the
      code-point order that Python's [sorted] uses.
    - A Python exception is a constructor of [exn]; a call that may raise
      returns a [result].
    - Paths follow [posixpath].
    - [json.loads], [bytes.decode], [pkg_resources.evaluate_marker] and
      [ZipFile.extractall] belong to libraries, so they are variables of the
      section [Whl]. *)

From Stdlib Require Import ZArith Ascii String.
From stdpp Require Import base option list sorting gmap strings.

Local Open Scope string_scope.
Local Open Scope Z_scope.

(** ** Exceptions and results *)

Inductive exn : Type :=
  | IndexError          (* list index out of range *)
  | KeyError            (* no such member in the archive *)
  | AttributeError      (* attribute access on None *)
  | FileNotFoundError   (* no file at the path *)
  | BadZipFile          (* damaged archive or member *)
  | RuntimeError        (* member is encrypted *)
  | UnicodeDecodeError  (* bytes are not UTF-8 *)
  | JSONDecodeError     (* text is not JSON *)
  | SyntaxError.        (* invalid environment marker *)

Inductive result (A : Type) : Type :=
  | Ok (a : A)
  | Raise (e : exn).
Arguments Ok {A} a.
Arguments Raise {A} e.

#[global] Instance exn_eq_dec : EqDecision exn.
Proof. solve_decision. Defined.

#[global] Instance result_ret : MRet result := fun _ a => Ok a.
#[global] Instance result_bind : MBind result := fun _ _ f m =>
  match m with
  | Ok a => f a
  | Raise e => Raise e
  end.

(** [try: body except KeyError: handler]. *)
Definition try_except_KeyError {A} (body handler : result A) : result A :=
  match body with
  | Raise KeyError => handler
  | r => r
  end.

(** ** Strings *)

Module Str.

Definition is_char (c d : ascii) : bool := Ascii.eqb c d.

(** [s.split(sep)] for a one-character separator, and [re.split] on a
    character class: the pieces between the separators, in order.  There
    is always at least one piece. *)
Fixpoint split_by (sep : ascii → bool) (s : string) : list string :=
  match s with
  | EmptyString => [EmptyString]
  | String c rest =>
      if sep c then EmptyString :: split_by sep rest
      else match split_by sep rest with
           | h :: t => String c h :: t
           | [] => [String c EmptyString]
           end
  end.

(** [sep.join(parts)] for a one-character separator. *)
Fixpoint join (sep : ascii) (parts : list string) : string :=
  match parts with
  | [] => EmptyString
  | [p] => p
  | p :: ps => p ++ String sep (join sep ps)
  end.

(** Every character of [s] satisfies [p]. *)
Fixpoint all (p : ascii → bool) (s : string) : bool :=
  match s with
  | EmptyString => true
  | String c rest => p c && all p rest
  end.

(** [re.sub] of a character class by the string [repl]. *)
Fixpoint sub_class (cls : ascii → bool) (repl : string) (s : string) : string :=
  match s with
  | EmptyString => EmptyString
  | String c rest =>
      (if cls c then repl else String c EmptyString) ++ sub_class cls repl rest
  end.

(** [s.endswith(suffix)]. *)
Definition endswith (s suffix : string) : bool :=
  let n := String.length s in
  let k := String.length suffix in
  (k <=? n)%nat && String.eqb (String.substring (n - k) k s) suffix.

(** The characters of [s] up to the first that satisfies [stop]. *)
Fixpoint take_until (stop : ascii → bool) (s : string) : string :=
  match s with
  | EmptyString => EmptyString
  | String c rest => if stop c then EmptyString else String c (take_until stop rest)
  end.

Fixpoint drop (n : nat) (s : string) : string :=
  match n, s with
  | O, _ => s
  | S n', String _ rest => drop n' rest
  | S _, EmptyString => EmptyString
  end.

(** [needle] occurs in [s]. *)
Definition occurs (needle s : string) : Prop :=
  ∃ before after, s = before ++ needle ++ after.

End Str.

(** [list[i]] *)
Definition py_index {A} (l : list A) (i : nat) : result A :=
  match l !! i with
  | Some x => Ok x
  | None => Raise IndexError
  end.

(** [os.path.basename], POSIX flavour: what follows the last slash. *)
Definition os_path_basename (p : string) : string :=
  List.last (Str.split_by (Str.is_char "/") p) EmptyString.

(** [os.path.join(a, b)], POSIX flavour. *)
Definition os_path_join (a b : string) : string :=
  if String.prefix "/" b then b
  else if String.eqb a "" || Str.endswith a "/" then a ++ b
  else a ++ "/" ++ b.

(** ** Identity of a wheel *)

Record Wheel : Type := { _path : string }.

Definition path (self : Wheel) : string := _path self.

Definition basename (self : Wheel) : string := os_path_basename (path self).

Definition distribution (self : Wheel) : result string :=
  let parts := Str.split_by (Str.is_char "-") (basename self) in
  py_index parts 0.

Definition version (self : Wheel) : result string :=
  let parts := Str.split_by (Str.is_char "-") (basename self) in
  py_index parts 1.

(** The character class [[-.+]]. *)
Definition illegal_char (c : ascii) : bool :=
  Str.is_char c "-" || Str.is_char c "." || Str.is_char c "+".

Definition repository_suffix (self : Wheel) : result string :=
  d ← distribution self;
  v ← version self;
  let canonical := "pypi__" ++ d ++ "_" ++ v in
  Ok (Str.sub_class illegal_char "_" canonical).

Definition _dist_info (self : Wheel) : result string :=
  d ← distribution self;
  v ← version self;
  Ok (d ++ "-" ++ v ++ ".dist-info").

(** ** Metadata records

    The record that [metadata()] returns: the JSON object of [metadata.json]
    read through its schema, or the one-key dict of the flat form.  A key
    that is absent is [None]; for the string-valued keys a null is [None]
    as well, [dict.get] answering None for both.  The list-valued keys are
    lists or absent. *)

Record RequirementGroup : Type := {
  rg_extra : option string;          (* 'extra' *)
  rg_environment : option string;    (* 'environment' *)
  rg_requires : option (list string) (* 'requires' *)
}.

Record Metadata : Type := {
  md_name : option string;                         (* 'name' *)
  md_run_requires : option (list RequirementGroup); (* 'run_requires' *)
  md_extras : option (list string)                 (* 'extras' *)
}.

(** [dict.get(key, default)] *)
Definition get_default {A} (field : option A) (dflt : A) : A :=
  match field with
  | Some v => v
  | None => dflt
  end.

Definition newline : ascii := Ascii.ascii_of_nat 10.

(** [name_pattern.search(content)], the pattern being the literal [Name: ]
    followed by a group of any characters, greedy: the match is at the
    leftmost position where the literal starts, and group 1 runs to the next
    newline, which the dot does not match.  The value is group 1, or [None]
    when there is no match. *)
Fixpoint name_pattern_search (content : string) : option string :=
  if String.prefix "Name: " content
  then Some (Str.take_until (Str.is_char newline) (Str.drop 6 content))
  else match content with
       | EmptyString => None
       | String _ rest => name_pattern_search rest
       end.

(** [None.group(1)] raises [AttributeError]. *)
Definition _parse_metadata (content : string) : result Metadata :=
  match name_pattern_search content with
  | Some group1 =>
      Ok {| md_name := Some group1; md_run_requires := None; md_extras := None |}
  | None => Raise AttributeError
  end.

(** ** Archives and the file system *)

Record ZipInfo : Type := {
  filename : string;
  external_attr : Z
}.

Inductive payload : Type :=
  | Stored (data : string)  (* opens and reads *)
  | BadHeader               (* [open] raises BadZipFile *)
  | Encrypted               (* [open] raises RuntimeError *)
  | BadCRC.                 (* [read] raises BadZipFile *)

Record ZipEntry : Type := {
  info : ZipInfo;
  body : payload
}.

(** An archive is its central directory, in order. *)
Abbreviation ZipFile := (list ZipEntry).

Definition infolist (whl : ZipFile) : list ZipInfo := info <$> whl.

(** [NameToInfo[name]]: a later entry of the same name replaces an earlier. *)
Fixpoint getinfo (whl : ZipFile) (member : string) : option ZipEntry :=
  match whl with
  | [] => None
  | e :: rest =>
      match getinfo rest member with
      | Some e' => Some e'
      | None => if String.eqb (filename (info e)) member then Some e else None
      end
  end.

(** [whl.open(member)] *)
Definition zip_open (whl : ZipFile) (member : string) : result payload :=
  match getinfo whl member with
  | None => Raise KeyError
  | Some e =>
      match body e with
      | BadHeader => Raise BadZipFile
      | Encrypted => Raise RuntimeError
      | p => Ok p
      end
  end.

(** [f.read()] *)
Definition zip_read (f : payload) : result string :=
  match f with
  | Stored data => Ok data
  | _ => Raise BadZipFile
  end.

Inductive content : Type :=
  | Archive (whl : ZipFile)
  | Data (bytes : string).

Record File : Type := {
  st_mode : Z;        (* permission bits *)
  st_content : content
}.

Record World : Type := {
  files : gmap string File;
  umask : Z
}.

Definition set_umask (mask : Z) (w : World) : World :=
  {| files := files w; umask := mask |}.

Definition set_files (fs : gmap string File) (w : World) : World :=
  {| files := fs; umask := umask w |}.

(** [zipfile.ZipFile(path, 'r')] *)
Definition ZipFile_open (w : World) (p : string) : result ZipFile :=
  match files w !! p with
  | None => Raise FileNotFoundError
  | Some f =>
      match st_content f with
      | Archive whl => Ok whl
      | Data _ => Raise BadZipFile
      end
  end.

(** [os.umask(mask)]: installs the low nine bits, returns the old mask. *)
Definition os_umask (mask : Z) (w : World) : Z * World :=
  (umask w, set_umask (Z.land mask 511) w).

(** [os.chmod(path, mode)] *)
Definition os_chmod (p : string) (mode : Z) (w : World) : result World :=
  match files w !! p with
  | None => Raise FileNotFoundError
  | Some f =>
      Ok (set_files (<[p := {| st_mode := mode; st_content := st_content f |}]> (files w)) w)
  end.

Definition current_umask (w : World) : Z * World :=
  let '(mask, w1) := os_umask 0 w in
  let '(_, w2) := os_umask mask w1 in
  (mask, w2).

(** 0o777 is 511 and 0o111 is 73. *)
Definition set_extracted_file_to_default_mode_plus_executable
    (p : string) (w : World) : result World :=
  let '(mask, w1) := current_umask w in
  os_chmod p (Z.lor (Z.land 511 (Z.lnot mask)) 73) w1.

(** [stat.S_ISREG]: the file-type bits 0o170000 are 0o100000. *)
Definition S_ISREG (mode : Z) : bool := Z.land mode 61440 =? 32768.

(** Truth value of a Python [int] and of a [str]. *)
Definition int_truthy (n : Z) : bool := negb (n =? 0).
Definition str_truthy (s : string) : bool := negb (String.eqb s "").

(** [for x in l: s = step s x], an exception in the step leaving the loop. *)
Fixpoint for_each {A S} (step : S → A → result S) (l : list A) (s : S) : result S :=
  match l with
  | [] => Ok s
  | x :: rest => s' ← step s x; for_each step rest s'
  end.

(** The character class [[ ><=()]]. *)
Definition qualifier_char (c : ascii) : bool :=
  Str.is_char c " " || Str.is_char c ">" || Str.is_char c "<"
  || Str.is_char c "=" || Str.is_char c "(" || Str.is_char c ")".

(** [sorted] on strings: ascending in the lexicographic order by character
    code, [String.le]. *)
Definition sorted (l : list string) : list string := merge_sort String.le l.

(** ** The methods that read the archive *)

Section Whl.

(** [json.loads], with the schema applied; [None] is JSONDecodeError. *)
Variable json_loads : string → option Metadata.
(** [bytes.decode("utf-8")]; [None] is UnicodeDecodeError. *)
Variable decode_utf8 : string → option string.
(** [pkg_resources.evaluate_marker] *)
Variable evaluate_marker : string → result bool.
(** [ZipFile.extractall] *)
Variable extractall : ZipFile → string → World → result World.

Definition decode (raw : string) : result string :=
  match decode_utf8 raw with
  | Some text => Ok text
  | None => Raise UnicodeDecodeError
  end.

Definition loads (text : string) : result Metadata :=
  match json_loads text with
  | Some md => Ok md
  | None => Raise JSONDecodeError
  end.

Definition metadata (w : World) (self : Wheel) : result Metadata :=
  whl ← ZipFile_open w (path self);
  try_except_KeyError
    (dist_info ← _dist_info self;
     f ← zip_open whl (dist_info ++ "/metadata.json");
     raw ← zip_read f;
     text ← decode raw;
     loads text)
    (dist_info ← _dist_info self;
     f ← zip_open whl (dist_info ++ "/METADATA");
     raw ← zip_read f;
     text ← decode raw;
     _parse_metadata text).

Definition name (w : World) (self : Wheel) : result (option string) :=
  md ← metadata w self;
  Ok (md_name md).

(** [parts = re.split('[ ><=()]', entry); dependency_set.add(parts[0])] *)
Definition add_entry (dependency_set : gset string) (entry : string)
    : result (gset string) :=
  let parts := Str.split_by qualifier_char entry in
  bare ← py_index parts 0;
  Ok (dependency_set ∪ {[ bare ]}).

(** [marker and not pkg_resources.evaluate_marker(marker)] *)
Definition marker_excludes (marker : option string) : result bool :=
  match marker with
  | Some m =>
      if str_truthy m then b ← evaluate_marker m; Ok (negb b)
      else Ok false
  | None => Ok false
  end.

(** The two guards at the head of the loop over [run_requires]: [false]
    when one of them reaches its [continue]. *)
Definition group_selected (extra : option string)
    (requirement : RequirementGroup) : result bool :=
  if bool_decide (rg_extra requirement ≠ extra) then Ok false
  else
    let marker := rg_environment requirement in
    skip ← marker_excludes marker;
    Ok (negb skip).

(** The body of the loop over [run_requires]. *)
Definition requirement_step (extra : option string)
    (dependency_set : gset string) (requirement : RequirementGroup)
    : result (gset string) :=
  selected ← group_selected extra requirement;
  if (selected : bool) then
    let requires := get_default (rg_requires requirement) [] in
    for_each add_entry requires dependency_set
  else Ok dependency_set.

(** The loop of [dependencies] on a record already read. *)
Definition dependencies_of (md : Metadata) (extra : option string)
    : result (list string) :=
  let run_requires := get_default (md_run_requires md) [] in
  dependency_set ← for_each (requirement_step extra) run_requires ∅;
  Ok (sorted (elements dependency_set)).

Definition dependencies (w : World) (self : Wheel) (extra : option string)
    : result (list string) :=
  md ← metadata w self;
  dependencies_of md extra.

Definition extras (w : World) (self : Wheel) : result (list string) :=
  md ← metadata w self;
  Ok (get_default (md_extras md) []).

(** The body of the loop over [infolist()]. *)
Definition expand_step (directory : string) (w : World) (i : ZipInfo)
    : result World :=
  let name := filename i in
  if Str.endswith name "/" || Str.endswith name "\" then Ok w
  else
    let mode := Z.shiftr (external_attr i) 16 in
    if int_truthy mode && S_ISREG mode && int_truthy (Z.land mode 73) then
      let name := os_path_join directory name in
      set_extracted_file_to_default_mode_plus_executable name w
    else Ok w.

Definition expand (w : World) (self : Wheel) (directory : string)
    : result World :=
  whl ← ZipFile_open w (path self);
  w1 ← extractall whl directory w;
  for_each (expand_step directory) (infolist whl) w1.

End Whl.

(** ** The text of the BUILD file

    What [main] hands to [f.write]: the template filled with the
    [--requirements] argument, the labels of [dependencies()] and one target
    per [--extras] argument.  The parsing of the command line, the call of
    [expand] and the opening of the file are around it in [main]. *)

Definition dquote : ascii := Ascii.ascii_of_nat 34.

(** [s] between double quotes. *)
Definition quoted (s : string) : string := String dquote (s ++ String dquote "").

(** [sep.join(parts)] *)
Fixpoint str_join (sep : string) (parts : list string) : string :=
  match parts with
  | [] => ""
  | [p] => p
  | p :: ps => p ++ sep ++ str_join sep ps
  end.

(** A list comprehension whose element may raise. *)
Fixpoint map_result {A B} (f : A → result B) (l : list A) : result (list B) :=
  match l with
  | [] => Ok []
  | x :: rest => y ← f x; ys ← map_result f rest; Ok (y :: ys)
  end.

(** The label of one dependency: [requirement] applied to the quoted
    [d.split("[")[0]]. *)
Definition requirement_label (d : string) : result string :=
  first ← py_index (Str.split_by (Str.is_char "[") d) 0;
  Ok ("requirement(" ++ quoted first ++ ")").

(** The comma-joined labels of a list of dependencies. *)
Definition requirement_labels (deps : list string) : result string :=
  labels ← map_result requirement_label deps;
  Ok (str_join "," labels).

(** The target of one extra, [deps] being its joined labels. *)
Definition extra_target (extra deps : string) : string :=
  "py_library(
    name = " ++ quoted extra ++ ",
    deps = [
        " ++ quoted ":pkg" ++ "," ++ deps ++ "
    ],
)".

(** The outer template. *)
Definition build_file (requirements dependencies extras : string) : string :=
  "
package(default_visibility = [" ++ quoted "//visibility:public" ++ "])

load(" ++ quoted "@rules_python//python:defs.bzl" ++ ", " ++ quoted "py_library" ++ ")
load(" ++ quoted requirements ++ ", " ++ quoted "requirement" ++ ")

py_library(
    name = " ++ quoted "pkg" ++ ",
    srcs = glob([" ++ quoted "**/*.py" ++ "], allow_empty = True),
    data = glob([" ++ quoted "**/*" ++ "], exclude=[" ++ quoted "**/*.py" ++ ", "
  ++ quoted "**/* *" ++ ", " ++ quoted "BUILD" ++ ", " ++ quoted "WORKSPACE" ++ "]),
    # This makes this directory a top-level in the python import
    # search path for anything that depends on this.
    imports = [" ++ quoted "." ++ "],
    deps = [" ++ dependencies ++ "],
)
" ++ extras.

(** The parsed command line.  An option that is not given is [None]; the
    default of [--directory] is the current directory. *)
Record Args : Type := {
  arg_whl : string;
  arg_requirements : option string;
  arg_directory : string;
  arg_extras : option (list string)
}.

(** [str.format] of an argument that may be [None]. *)
Definition format_optional (value : option string) : string :=
  match value with
  | Some s => s
  | None => "None"
  end.

Section BuildFile.

Variable json_loads : string → option Metadata.
Variable decode_utf8 : string → option string.
Variable evaluate_marker : string → result bool.

(** The element of the comprehension over [args.extras or []]. *)
Definition extra_target_of (w : World) (whl : Wheel) (extra : string)
    : result string :=
  deps ← dependencies json_loads decode_utf8 evaluate_marker w whl (Some extra);
  labels ← requirement_labels deps;
  Ok (extra_target extra labels).

(** The argument of [f.write] in [main]; the keyword arguments of [format]
    are evaluated in the order they are written. *)
Definition build_text (args : Args) (w : World) : result string :=
  let whl := {| _path := arg_whl args |} in
  let requirements := format_optional (arg_requirements args) in
  deps ← dependencies json_loads decode_utf8 evaluate_marker w whl None;
  labels ← requirement_labels deps;
  targets ← map_result (extra_target_of w whl) (get_default (arg_extras args) []);
  Ok (build_file requirements labels (str_join (String newline (String newline "")) targets)).

End BuildFile.

(** * Vocabulary of the properties *)

(** What the specification says of the suffix, character by character. *)
Definition replace_illegal (c : ascii) : ascii :=
  if decide (c ∈ ["-"; "."; "+"]%char) then "_"%char else c.

Definition in_range (lo hi : nat) (c : ascii) : bool :=
  (lo <=? nat_of_ascii c)%nat && (nat_of_ascii c <=? hi)%nat.

(** [[A-Za-z0-9_]] *)
Definition word_char (c : ascii) : bool :=
  in_range 65 90 c || in_range 97 122 c || in_range 48 57 c || Str.is_char c "_".

(** [[A-Za-z0-9_.+-]] *)
Definition name_char (c : ascii) : bool := word_char c || illegal_char c.

(** Printable ASCII: space to tilde. *)
Definition printable (c : ascii) : bool := in_range 32 126 c.

(** [before] is the text in front of the leftmost occurrence of [needle]. *)
Definition leftmost (needle before s : string) : Prop :=
  (∃ after, s = before ++ needle ++ after)
  ∧ ∀ b a, s = b ++ needle ++ a → (String.length before ≤ String.length b)%nat.

(** [g] is a whole capture of the dot-star group in front of [after]: no
    newline inside, and the end of the text or a newline behind. *)
Definition to_end_of_line (g after : string) : Prop :=
  Str.all (λ c, negb (Str.is_char newline c)) g = true
  ∧ (after = "" ∨ ∃ c rest, after = String c rest ∧ Str.is_char newline c = true).

Definition lines (s : string) : list string := Str.split_by (Str.is_char newline) s.

(** The record of the flat form. *)
Definition flat_record (g : string) : Metadata :=
  {| md_name := Some g; md_run_requires := None; md_extras := None |}.

(** [bare] is [entry] cut at its first qualifier character. *)
Definition is_bare_name (entry bare : string) : Prop :=
  ∃ rest,
    entry = bare ++ rest
    ∧ Str.all (λ c, negb (qualifier_char c)) bare = true
    ∧ (rest = "" ∨ ∃ c rest', rest = String c rest' ∧ qualifier_char c = true).

Definition bare_name (entry : string) : string := Str.take_until qualifier_char entry.

(** The bare names of the requirements of a group. *)
Definition group_names (g : RequirementGroup) : gset string :=
  list_to_set (bare_name <$> get_default (rg_requires g) []).


(** The marker of the group lets it through: there is none, it is empty, or
    it evaluates to true. *)
Definition marker_passes (ev : string → result bool) (g : RequirementGroup) : Prop :=
  match rg_environment g with
  | None => True
  | Some m => m = "" ∨ ev m = Ok true
  end.

Definition group_matches (ev : string → result bool) (extra : option string)
    (g : RequirementGroup) : Prop :=
  rg_extra g = extra ∧ marker_passes ev g.

(** The marker of the group, if the loop comes to evaluate it, has a value. *)
Definition marker_evaluable (ev : string → result bool) (extra : option string)
    (g : RequirementGroup) : Prop :=
  rg_extra g = extra →
  ∀ m, rg_environment g = Some m → m ≠ "" → ∃ b, ev m = Ok b.

(** 0o777 with the bits of [mask] cleared, then the three execute bits. *)
Definition executable_mode (mask : Z) : Z := Z.lor (Z.land 511 (Z.lnot mask)) 73.

(** The stored mode of a member: the high 16 bits of its external attributes. *)
Definition stored_mode (i : ZipInfo) : Z := Z.shiftr (external_attr i) 16.

(** The test of the loop for a directory entry: the name ends with a slash
    or a backslash. *)
Definition is_directory_name (n : string) : bool :=
  Str.endswith n "/" || Str.endswith n "\".

(** The member is a plain file, regular and with some execute bit stored. *)
Definition stored_executable (i : ZipInfo) : bool :=
  negb (is_directory_name (filename i))
  && S_ISREG (stored_mode i)
  && negb (Z.land (stored_mode i) 73 =? 0).

(** Where the loop looks for the extracted file of a member. *)
Definition extracted_path (directory : string) (i : ZipInfo) : string :=
  os_path_join directory (filename i).

(** The paths whose mode the loop sets. *)
Definition executable_paths (directory : string) (infos : list ZipInfo) : list string :=
  extracted_path directory <$> filter (λ i, stored_executable i = true) infos.

Definition with_mode (mode : Z) (f : File) : File :=
  {| st_mode := mode; st_content := st_content f |}.

(** [s] has no character [c]. *)
Definition free_of (c : ascii) (s : string) : bool :=
  Str.all (λ x, negb (Str.is_char c x)) s.

(** [s] is empty or begins with the character [c]. *)
Definition empty_or_starts (c : ascii) (s : string) : Prop :=
  s = "" ∨ ∃ rest, s = String c rest.

(** Where a label of the BUILD file cuts a requirement string: at the first
    qualifier character or opening bracket. *)
Definition label_stop (c : ascii) : bool := qualifier_char c || Str.is_char "[" c.

(** The member carries no Unix mode: its external attributes fit in the low
    16 bits. *)
Definition no_unix_mode (i : ZipInfo) : Prop := 0 ≤ external_attr i < 65536.

(** The record [md] with [groups] for its [run_requires]. *)
Definition with_groups (md : Metadata) (groups : list RequirementGroup) : Metadata :=
  {| md_name := md_name md; md_run_requires := Some groups; md_extras := md_extras md |}.

(** * A wheel to run the methods on *)

Module Example.

Definition line (s rest : string) : string := s ++ String newline rest.

Definition base : RequirementGroup :=
  {| rg_extra := None; rg_environment := None;
     rg_requires := Some ["foo>=1.0"; "bar"] |}.

Definition on_python3 : RequirementGroup :=
  {| rg_extra := None; rg_environment := Some "python_version >= '3'";
     rg_requires := Some ["foo==2.0"; "six (>=1.9)"] |}.

Definition on_windows : RequirementGroup :=
  {| rg_extra := None; rg_environment := Some "sys_platform == 'win32'";
     rg_requires := Some ["pywin32"] |}.

Definition empty_marker : RequirementGroup :=
  {| rg_extra := None; rg_environment := Some "";
     rg_requires := Some ["attrs"] |}.

Definition testing : RequirementGroup :=
  {| rg_extra := Some "test"; rg_environment := Some "no such marker";
     rg_requires := Some ["pytest"] |}.

Definition bad_marker : RequirementGroup :=
  {| rg_extra := None; rg_environment := Some "no such marker";
     rg_requires := Some ["foo"] |}.

Definition record : Metadata :=
  {| md_name := Some "example";
     md_run_requires := Some [base; on_python3; on_windows; empty_marker; testing];
     md_extras := Some ["test"] |}.

Definition broken_record : Metadata :=
  {| md_name := Some "broken";
     md_run_requires := Some [base; bad_marker];
     md_extras := None |}.

(** A parser that knows two documents. *)
Definition json_loads (text : string) : option Metadata :=
  if String.eqb text "{example}" then Some record
  else if String.eqb text "{broken}" then Some broken_record
  else None.

Definition decode_utf8 (raw : string) : option string := Some raw.

(** An evaluator for an environment with Python 3, not on Windows. *)
Definition evaluate_marker (m : string) : result bool :=
  if String.eqb m "python_version >= '3'" then Ok true
  else if String.eqb m "sys_platform == 'win32'" then Ok false
  else Raise SyntaxError.

(** 0o100755, 0o100644 and 0o040755 in the high 16 bits. *)
Definition run_info : ZipInfo :=
  {| filename := "bin/run"; external_attr := Z.shiftl 33261 16 |}.
Definition module_info : ZipInfo :=
  {| filename := "pkg/a.py"; external_attr := Z.shiftl 33188 16 |}.
Definition package_info : ZipInfo :=
  {| filename := "pkg/"; external_attr := Z.shiftl 16877 16 |}.

Definition whl : ZipFile :=
  [ {| info := package_info; body := Stored "" |};
    {| info := module_info; body := Stored "import six" |};
    {| info := run_info; body := Stored "#!/bin/sh" |};
    {| info := {| filename := "example-1.0.dist-info/metadata.json";
                  external_attr := Z.shiftl 33188 16 |};
       body := Stored "{example}" |};
    {| info := {| filename := "example-1.0.dist-info/METADATA";
                  external_attr := Z.shiftl 33188 16 |};
       body := Stored (line "Name: example" "") |} ].

Definition flat_whl : ZipFile :=
  [ {| info := {| filename := "flat-2.0.dist-info/METADATA";
                  external_attr := Z.shiftl 33188 16 |};
       body := Stored ("X-Name: other" ++ line "" (line "Name: real" "")) |} ].

Definition broken_whl : ZipFile :=
  [ {| info := {| filename := "broken-0.1.dist-info/metadata.json";
                  external_attr := Z.shiftl 33188 16 |};
       body := Stored "{broken}" |} ].

Definition wheel : Wheel := {| _path := "wheels/example-1.0-py3-none-any.whl" |}.
Definition flat_wheel : Wheel := {| _path := "wheels/flat-2.0-py3-none-any.whl" |}.
Definition broken_wheel : Wheel := {| _path := "wheels/broken-0.1-py3-none-any.whl" |}.

(** A process with umask 0o022. *)
Definition world : World :=
  {| files :=
       {[ "wheels/example-1.0-py3-none-any.whl" :=
            {| st_mode := 420; st_content := Archive whl |} ;
          "wheels/flat-2.0-py3-none-any.whl" :=
            {| st_mode := 420; st_content := Archive flat_whl |} ;
          "wheels/broken-0.1-py3-none-any.whl" :=
            {| st_mode := 420; st_content := Archive broken_whl |} ]};
     umask := 18 |}.

(** An extraction that writes every member where the loop of [expand]
    looks for it, with the mode 0o666, or 0o777 for a directory entry,
    less the umask. *)
Definition extractall (whl : ZipFile) (directory : string) (w : World)
    : result World :=
  let write fs e :=
    <[extracted_path directory (info e) :=
        {| st_mode :=
             Z.land (if is_directory_name (filename (info e)) then 511 else 438)
                    (Z.lnot (umask w));
           st_content := Data (match body e with Stored d => d | _ => "" end) |}]> fs in
  Ok (set_files (foldl write (files w) whl) w).

(** Where the extraction of CPython writes a member: under the directory, at
    the components of the member name that are not empty, [.] or [..]; a
    leading slash is dropped with the empty component in front of it. *)
Definition entry_path (directory : string) (i : ZipInfo) : string :=
  os_path_join directory
    (Str.join "/"
       (filter (λ part, part ∉ [""; "."; ".."])
          (Str.split_by (Str.is_char "/") (filename i)))).

(** The extraction of CPython on the members' names: a member whose name
    ends with a slash becomes a directory, every other member a regular
    file, with the modes 0o777 and 0o666 less the umask. *)
Definition extract_entries (whl : ZipFile) (directory : string) (w : World)
    : result World :=
  let write fs e :=
    <[entry_path directory (info e) :=
        {| st_mode :=
             Z.land (if Str.endswith (filename (info e)) "/" then 511 else 438)
                    (Z.lnot (umask w));
           st_content := Data (match body e with Stored d => d | _ => "" end) |}]> fs in
  Ok (set_files (foldl write (files w) whl) w).

(** A member with the permission bits 0o755 and no file type, and a member
    with an absolute name and the mode 0o100755. *)
Definition typeless_info : ZipInfo :=
  {| filename := "bin/tool"; external_attr := Z.shiftl 493 16 |}.
Definition absolute_info : ZipInfo :=
  {| filename := "/usr/bin/tool"; external_attr := Z.shiftl 33261 16 |}.

Definition typeless_whl : ZipFile :=
  [ {| info := typeless_info; body := Stored "#!/bin/sh" |} ].
Definition absolute_whl : ZipFile :=
  [ {| info := absolute_info; body := Stored "#!/bin/sh" |} ].

Definition typeless_wheel : Wheel :=
  {| _path := "wheels/typeless-1.0-py3-none-any.whl" |}.
Definition absolute_wheel : Wheel :=
  {| _path := "wheels/absolute-1.0-py3-none-any.whl" |}.

(** A host with the two wheels and umask 0o022, without and with a file at
    the absolute name. *)
Definition bare_host : World :=
  {| files :=
       {[ "wheels/typeless-1.0-py3-none-any.whl" :=
            {| st_mode := 420; st_content := Archive typeless_whl |} ;
          "wheels/absolute-1.0-py3-none-any.whl" :=
            {| st_mode := 420; st_content := Archive absolute_whl |} ]};
     umask := 18 |}.

Definition host : World :=
  set_files
    (<["/usr/bin/tool" := {| st_mode := 420; st_content := Data "system tool" |}]>
       (files bare_host))
    bare_host.

End Example.

(** * Properties *)

Lemma bind_Ok {A B} (f : A → result B) (a : A) : (Ok a ≫= f) = f a.
Proof. reflexivity. Qed.

Lemma bind_Raise {A B} (f : A → result B) (e : exn) : (Raise e ≫= f) = Raise e.
Proof. reflexivity. Qed.

(** ** Facts on strings *)

Section StrFacts.

Implicit Types (s t u : string) (c : ascii) (p : ascii → bool).

Lemma app_cons c s t : String c s ++ t = String c (s ++ t).
Proof. reflexivity. Qed.

Lemma app_empty_l s : "" ++ s = s.
Proof. reflexivity. Qed.

Lemma app_empty_r s : s ++ "" = s.
Proof. induction s as [|c s IH]; [done|]. by rewrite app_cons, IH. Qed.

Lemma app_assoc s t u : (s ++ t) ++ u = s ++ t ++ u.
Proof. induction s as [|c s IH]; [done|]. by rewrite !app_cons, IH. Qed.

Lemma length_app s t :
  String.length (s ++ t) = (String.length s + String.length t)%nat.
Proof. induction s as [|c s IH]; [done|]. rewrite app_cons. simpl. by rewrite IH. Qed.

Lemma length_zero s : String.length s = 0%nat → s = "".
Proof. by destruct s. Qed.

Lemma prefix_spec t s : String.prefix t s = true ↔ ∃ u, s = t ++ u.
Proof.
  revert s. induction t as [|c t IH]; intros s.
  - split; [intros _; by exists s|intros _; by destruct s].
  - destruct s as [|d s]; simpl.
    + split; [done|]. intros [u Hu]. by rewrite app_cons in Hu.
    + destruct (ascii_dec c d) as [->|Hne].
      * rewrite IH. split; intros [u Hu]; exists u.
        -- by rewrite app_cons, Hu.
        -- rewrite app_cons in Hu. by simplify_eq.
      * split; [done|]. intros [u Hu]. rewrite app_cons in Hu. by simplify_eq.
Qed.

Lemma all_app p s t : Str.all p (s ++ t) = Str.all p s && Str.all p t.
Proof.
  induction s as [|c s IH]; [done|].
  rewrite app_cons. simpl. by rewrite IH, andb_assoc.
Qed.

Lemma split_by_head p s : ∃ rest, Str.split_by p s = Str.take_until p s :: rest.
Proof.
  induction s as [|c s [rest IH]]; simpl; [by eexists|].
  destruct (p c); [by eexists|]. rewrite IH. by eexists.
Qed.

Lemma split_by_parts_clean p s :
  Forall (λ part, Str.all (λ c, negb (p c)) part = true) (Str.split_by p s).
Proof.
  induction s as [|c s IH]; simpl; [by repeat constructor|].
  destruct (p c) eqn:Hc; [by constructor|].
  destruct (Str.split_by p s) as [|h t]; [by repeat constructor; simpl; rewrite Hc|].
  inversion_clear IH as [|? ? Hh Ht]. constructor; [|done].
  simpl. by rewrite Hc, Hh.
Qed.

Lemma join_split_by c s : Str.join c (Str.split_by (Str.is_char c) s) = s.
Proof.
  induction s as [|d s IH]; [done|]. simpl.
  destruct (Str.is_char c d) eqn:Hd.
  - apply Ascii.eqb_eq in Hd as <-.
    destruct (Str.split_by (Str.is_char c) s) as [|h t] eqn:Hs.
    + by destruct (split_by_head (Str.is_char c) s) as [? ?]; simplify_eq.
    + simpl in *. by rewrite app_empty_l, IH.
  - destruct (Str.split_by (Str.is_char c) s) as [|h [|h' t]]; simpl in *;
      [by subst|by subst|].
    by rewrite app_cons, IH.
Qed.

Lemma take_until_clean p s : Str.all (λ c, negb (p c)) (Str.take_until p s) = true.
Proof.
  induction s as [|c s IH]; [done|]. simpl.
  destruct (p c) eqn:Hc; [done|]. simpl. by rewrite Hc.
Qed.

(** A string is its piece before the first stop character followed by a
    rest that is empty or begins with a stop character. *)
Lemma take_until_split p s :
  ∃ rest, s = Str.take_until p s ++ rest
          ∧ (rest = "" ∨ ∃ c rest', rest = String c rest' ∧ p c = true).
Proof.
  induction s as [|c s (rest & IH & Hrest)]; [by exists ""; auto|]. simpl.
  destruct (p c) eqn:Hc.
  - exists (String c s). split; [done|]. right. by exists c, s.
  - exists rest. by rewrite app_cons, <- IH.
Qed.

Lemma take_until_app p s rest :
  Str.all (λ c, negb (p c)) s = true →
  (rest = "" ∨ ∃ c rest', rest = String c rest' ∧ p c = true) →
  Str.take_until p (s ++ rest) = s.
Proof.
  intros Hs Hrest. induction s as [|c s IH].
  - rewrite app_empty_l. destruct Hrest as [->|(c & r & -> & Hc)]; [done|].
    simpl. by rewrite Hc.
  - rewrite app_cons. simpl in *. apply andb_true_iff in Hs as [Hc Hs].
    apply negb_true_iff in Hc. rewrite Hc. by rewrite IH.
Qed.

End StrFacts.

(** ** Identity *)

Lemma py_index_head {A} (x : A) l : py_index (x :: l) 0 = Ok x.
Proof. reflexivity. Qed.

Lemma sub_class_app cls repl s t :
  Str.sub_class cls repl (s ++ t) = Str.sub_class cls repl s ++ Str.sub_class cls repl t.
Proof.
  induction s as [|c s IH]; [done|].
  rewrite app_cons. simpl. by rewrite IH, app_assoc.
Qed.

Lemma sub_class_replace s :
  Str.sub_class illegal_char "_" s
  = string_of_list_ascii (replace_illegal <$> list_ascii_of_string s).
Proof.
  induction s as [|c s IH]; [done|].
  change ((if illegal_char c then "_" else String c "")
            ++ Str.sub_class illegal_char "_" s
          = String (replace_illegal c)
              (string_of_list_ascii (replace_illegal <$> list_ascii_of_string s))).
  rewrite <- IH. unfold replace_illegal, illegal_char, Str.is_char.
  destruct (decide (c ∈ _)) as [Hin|Hout].
  - rewrite !elem_of_cons, elem_of_nil in Hin.
    by destruct Hin as [->|[->|[->|[]]]].
  - rewrite !elem_of_cons, elem_of_nil in Hout.
    destruct (Ascii.eqb_spec c "-") as [->|]; [tauto|].
    destruct (Ascii.eqb_spec c ".") as [->|]; [tauto|].
    destruct (Ascii.eqb_spec c "+") as [->|]; [tauto|done].
Qed.

Lemma sub_class_word s :
  Str.all word_char (Str.sub_class illegal_char "_" s) = Str.all name_char s.
Proof.
  induction s as [|c s IH]; [done|]. simpl. rewrite all_app, IH.
  unfold name_char. destruct (illegal_char c) eqn:Hc; simpl.
  - by rewrite orb_true_r.
  - by rewrite orb_false_r, andb_true_r.
Qed.

(** C6, as the code has it: a basename is the join of its hyphen-delimited
    segments; [distribution] is segment 0 and never fails, so with fewer than
    two segments it returns the whole basename while [version] raises
    IndexError; with two segments or more, [distribution] is segment 0 and
    [version] is segment 1. *)
Theorem distribution_version_segments (self : Wheel) (parts : list string) :
  parts = Str.split_by (Str.is_char "-") (basename self) →
  Str.join "-" parts = basename self
  ∧ Forall (λ part, Str.all (λ c, negb (Str.is_char "-" c)) part = true) parts
  ∧ ((length parts < 2)%nat →
       distribution self = Ok (basename self) ∧ version self = Raise IndexError)
  ∧ ((2 ≤ length parts)%nat →
       ∃ a b, parts !! 0%nat = Some a ∧ parts !! 1%nat = Some b
              ∧ distribution self = Ok a ∧ version self = Ok b).
Proof.
  intros ->. split; [apply join_split_by|]. split; [apply split_by_parts_clean|].
  pose proof (join_split_by "-" (basename self)) as Hjoin.
  unfold distribution, version.
  destruct (Str.split_by _ (basename self)) as [|a [|b rest]] eqn:Hparts; simpl.
  - destruct (split_by_head (Str.is_char "-") (basename self)) as [? ?]. congruence.
  - split; [|lia]. intros _. simpl in Hjoin. by rewrite <- Hjoin.
  - split; [lia|]. intros _. by exists a, b.
Qed.

Lemma distribution_version_segments_witness :
  let self := {| _path := "wheels/google_cloud-0.27.0-py2.py3-none-any.whl" |} in
  distribution self = Ok "google_cloud" ∧ version self = Ok "0.27.0".
Proof.
  intros self.
  destruct (distribution_version_segments self _ eq_refl) as (_ & _ & _ & Hge).
  destruct Hge as (a & b & Ha & Hb & -> & ->); [vm_compute; lia|].
  vm_compute in Ha, Hb. by simplify_eq.
Defined.

(** C6 as stated fails: a basename of one segment has a distribution. *)
Lemma distribution_one_segment :
  let self := {| _path := "wheels/foo.whl" |} in
  (length (Str.split_by (Str.is_char "-") (basename self)) < 2)%nat
  ∧ distribution self = Ok "foo.whl"
  ∧ ¬ ∃ e, distribution self = Raise e.
Proof.
  split; [vm_compute; lia|]. split; [done|]. by intros [e He].
Qed.

(** C7, as the code has it: the suffix is [pypi__{distribution}_{version}]
    with each of [-], [.], [+] replaced by an underscore; it is not empty,
    and it consists of letters, digits and underscores when the distribution
    and the version consist of letters, digits, underscores and the three
    replaced characters. *)
Theorem repository_suffix_chars (self : Wheel) (d v : string) :
  distribution self = Ok d → version self = Ok v →
  ∃ suffix,
    repository_suffix self = Ok suffix
    ∧ suffix = string_of_list_ascii
                 (replace_illegal <$> list_ascii_of_string ("pypi__" ++ d ++ "_" ++ v))
    ∧ suffix ≠ ""
    ∧ (Str.all name_char d = true → Str.all name_char v = true →
       Str.all word_char suffix = true).
Proof.
  intros Hd Hv. unfold repository_suffix. rewrite Hd, Hv, !bind_Ok.
  eexists. split; [done|]. split; [apply sub_class_replace|]. split.
  - by rewrite sub_class_app.
  - intros Hdc Hvc. by rewrite sub_class_word, !all_app, Hdc, Hvc.
Qed.

Lemma repository_suffix_chars_witness :
  let self := {| _path := "wheels/google_cloud-0.27.0-py2.py3-none-any.whl" |} in
  repository_suffix self = Ok "pypi__google_cloud_0_27_0"
  ∧ Str.all word_char "pypi__google_cloud_0_27_0" = true.
Proof.
  intros self.
  destruct (repository_suffix_chars self "google_cloud" "0.27.0" eq_refl eq_refl)
    as (suffix & Hs & Heq & _ & Hword).
  vm_compute in Heq. subst suffix. split; [exact Hs|]. by apply Hword.
Defined.

(** C7 as stated fails: printable characters other than the three replaced
    ones stay, here the [!] of a version with an epoch. *)
Lemma repository_suffix_keeps_bang :
  let self := {| _path := "wheels/foo-1!2.0-py3-none-any.whl" |} in
  distribution self = Ok "foo" ∧ version self = Ok "1!2.0"
  ∧ Str.all printable "foo" = true ∧ Str.all printable "1!2.0" = true
  ∧ repository_suffix self = Ok "pypi__foo_1!2_0"
  ∧ Str.all word_char "pypi__foo_1!2_0" = false.
Proof. by vm_compute. Qed.

(** ** The flat form *)

Section Search.

Implicit Types (s t g : string).

Lemma name_pattern_search_unfold s :
  name_pattern_search s =
    if String.prefix "Name: " s
    then Some (Str.take_until (Str.is_char newline) (Str.drop 6 s))
    else match s with
         | EmptyString => None
         | String _ rest => name_pattern_search rest
         end.
Proof. by destruct s. Qed.

Lemma occurs_cons needle c s :
  String.prefix needle (String c s) = false →
  Str.occurs needle (String c s) → Str.occurs needle s.
Proof.
  intros Hpre (b & a & Hs). destruct b as [|d b].
  - rewrite app_empty_l in Hs.
    assert (String.prefix needle (String c s) = true) as Ht
      by (apply prefix_spec; eauto).
    congruence.
  - rewrite app_cons in Hs. simplify_eq. by exists b, a.
Qed.

Lemma leftmost_cons needle c before s :
  leftmost needle (String c before) (String c s) → leftmost needle before s.
Proof.
  intros [[after Hs] Hmin]. rewrite app_cons in Hs. simplify_eq. split.
  - by exists after.
  - intros b a Hb. specialize (Hmin (String c b) a).
    rewrite app_cons, <- Hb in Hmin. specialize (Hmin eq_refl). simpl in Hmin. lia.
Qed.

Lemma leftmost_prefix needle before s :
  leftmost needle before s → String.prefix needle s = true → before = "".
Proof.
  intros [_ Hmin] [u Hu]%prefix_spec. apply length_zero.
  specialize (Hmin "" u Hu). simpl in Hmin. lia.
Qed.

(** The search returns the capture at the leftmost occurrence. *)
Lemma search_leftmost before g after :
  leftmost "Name: " before (before ++ "Name: " ++ g ++ after) →
  to_end_of_line g after →
  name_pattern_search (before ++ "Name: " ++ g ++ after) = Some g.
Proof.
  intros Hleft [Hg Hafter]. induction before as [|c before IH].
  - rewrite name_pattern_search_unfold, app_empty_l.
    assert (String.prefix "Name: " ("Name: " ++ g ++ after) = true) as ->
      by (apply prefix_spec; eauto).
    change (Str.drop 6 ("Name: " ++ g ++ after)) with (g ++ after).
    by rewrite take_until_app.
  - rewrite name_pattern_search_unfold.
    destruct (String.prefix _ _) eqn:Hpre.
    + by apply (leftmost_prefix _ _ _ Hleft) in Hpre.
    + rewrite app_cons in *. apply IH. by eapply leftmost_cons.
Qed.

(** A successful search is at such an occurrence. *)
Lemma search_Some s g :
  name_pattern_search s = Some g →
  ∃ before after,
    s = before ++ "Name: " ++ g ++ after
    ∧ leftmost "Name: " before s ∧ to_end_of_line g after.
Proof.
  revert g. induction s as [|c s IH]; intros g; [done|].
  rewrite name_pattern_search_unfold.
  destruct (String.prefix _ _) eqn:Hpre.
  - apply prefix_spec in Hpre as [u Hu]. rewrite Hu.
    change (Str.drop 6 ("Name: " ++ u)) with u. intros [= <-].
    destruct (take_until_split (Str.is_char newline) u) as (rest & Hrest & Hend).
    exists "", rest. rewrite app_empty_l. split; [by rewrite <- Hrest|]. split.
    + split; [by exists u|]. intros; simpl; lia.
    + split; [apply take_until_clean|done].
  - intros (before & after & -> & [_ Hmin] & Hend)%IH.
    exists (String c before), after. split; [done|]. split; [|done]. split.
    + by exists (g ++ after).
    + intros [|d b] a Hb.
      * assert (String.prefix "Name: " (String c (before ++ "Name: " ++ g ++ after)) = true)
          by (apply prefix_spec; eauto).
        congruence.
      * rewrite app_cons in Hb. injection Hb as _ Hb.
        specialize (Hmin b a Hb). simpl. lia.
Qed.

Lemma search_None s :
  name_pattern_search s = None ↔ ¬ Str.occurs "Name: " s.
Proof.
  split.
  - induction s as [|c s IH]; rewrite name_pattern_search_unfold.
    + intros _ (b & a & Hs). apply (f_equal String.length) in Hs.
      rewrite !length_app in Hs. simpl in Hs. lia.
    + destruct (String.prefix _ _) eqn:Hpre; [done|].
      intros Hs Hocc. apply IH; [done|]. by eapply occurs_cons.
  - intros Hocc. destruct (name_pattern_search s) as [g|] eqn:Hs; [|done].
    destruct Hocc. apply search_Some in Hs as (before & after & -> & _).
    by exists before, (g ++ after).
Qed.

End Search.

Section Lines.

Variable sep : ascii → bool.
Variable needle : string.
Hypothesis needle_clean : Str.all (λ c, negb (sep c)) needle = true.

Lemma take_until_clean_app p s :
  Str.all (λ c, negb (sep c)) p = true →
  Str.take_until sep (p ++ s) = p ++ Str.take_until sep s.
Proof.
  induction p as [|c p IH]; [done|]. rewrite !app_cons. simpl.
  intros [Hc Hp]%andb_true_iff. apply negb_true_iff in Hc. rewrite Hc.
  by rewrite IH.
Qed.

Lemma occurs_cons_r c s : Str.occurs needle s → Str.occurs needle (String c s).
Proof. intros (b & a & ->). by exists (String c b), a. Qed.

(** An occurrence of a separator-free needle lies within one piece. *)
Lemma occurs_in_piece s :
  Str.occurs needle s → Exists (Str.occurs needle) (Str.split_by sep s).
Proof.
  intros (b & a & ->). induction b as [|c b IH].
  - rewrite app_empty_l.
    destruct (split_by_head sep (needle ++ a)) as [t ->].
    apply Exists_cons_hd. rewrite take_until_clean_app by done.
    by exists "", (Str.take_until sep a).
  - rewrite app_cons. simpl. destruct (sep c); [by apply Exists_cons_tl|].
    destruct (Str.split_by sep _) as [|h t]; [by inversion IH|].
    inversion_clear IH; [apply Exists_cons_hd|by apply Exists_cons_tl].
    by apply occurs_cons_r.
Qed.

(** Every piece is a part of the text. *)
Lemma piece_within s piece :
  piece ∈ Str.split_by sep s → ∃ x y, s = x ++ piece ++ y.
Proof.
  revert piece. induction s as [|c s IH]; intros piece; simpl.
  - intros ->%list_elem_of_singleton. by exists "", "".
  - destruct (sep c) eqn:Hc.
    + intros [->|Hin]%elem_of_cons.
      * by exists "", (String c s).
      * destruct (IH _ Hin) as (x & y & ->). by exists (String c x), y.
    + destruct (split_by_head sep s) as [t Ht]. rewrite Ht in *.
      intros [->|Hin]%elem_of_cons.
      * destruct (take_until_split sep s) as (rest & Hs & _).
        exists "", rest. by rewrite app_empty_l, app_cons, <- Hs.
      * destruct (IH piece) as (x & y & ->); [by apply elem_of_cons; right|].
        by exists (String c x), y.
Qed.

Lemma occurs_pieces s :
  Str.occurs needle s ↔ Exists (Str.occurs needle) (Str.split_by sep s).
Proof.
  split; [apply occurs_in_piece|].
  intros (piece & Hin & b & a & ->)%Exists_exists.
  apply piece_within in Hin as (x & y & ->).
  exists (x ++ b), (a ++ y). by rewrite !app_assoc.
Qed.

End Lines.

Lemma parse_metadata_leftmost before g after :
  leftmost "Name: " before (before ++ "Name: " ++ g ++ after) →
  to_end_of_line g after →
  _parse_metadata (before ++ "Name: " ++ g ++ after) = Ok (flat_record g).
Proof.
  intros Hleft Hend. unfold _parse_metadata. by rewrite search_leftmost.
Qed.

(** C8: when some line of the text contains [Name: ], the decoder returns the
    record whose name is the capture at the leftmost such place, running to
    the end of that line; any leftmost place with its capture is that one;
    and the decoder fails, with the AttributeError of the missing match,
    exactly when no line contains [Name: ]. *)
Theorem parse_metadata_first_match (content : string) :
  (Exists (Str.occurs "Name: ") (lines content) →
     ∃ before g after,
       content = before ++ "Name: " ++ g ++ after
       ∧ leftmost "Name: " before content ∧ to_end_of_line g after
       ∧ _parse_metadata content = Ok (flat_record g))
  ∧ (∀ before g after,
       content = before ++ "Name: " ++ g ++ after →
       leftmost "Name: " before content → to_end_of_line g after →
       _parse_metadata content = Ok (flat_record g))
  ∧ (_parse_metadata content = Raise AttributeError
     ↔ Forall (λ line, ¬ Str.occurs "Name: " line) (lines content)).
Proof.
  split; [|split].
  - intros Hocc%occurs_pieces; [|done]. unfold _parse_metadata.
    destruct (name_pattern_search content) as [g|] eqn:Hs.
    + destruct (search_Some _ _ Hs) as (before & after & ? & ? & ?).
      by exists before, g, after.
    + by apply search_None in Hs.
  - intros before g after -> Hleft Hend. by apply parse_metadata_leftmost.
  - rewrite Forall_Exists_neg, <- (occurs_pieces (Str.is_char newline)) by done.
    rewrite <- search_None. unfold _parse_metadata.
    by destruct (name_pattern_search content).
Qed.

Lemma parse_metadata_first_match_witness :
  let content := "Name: somepkg" ++ String newline ("Version: 1.0" ++ String newline "") in
  _parse_metadata content = Ok (flat_record "somepkg")
  ∧ _parse_metadata ("Version: 1.0" ++ String newline "") = Raise AttributeError.
Proof.
  intros content. split.
  - apply (proj1 (proj2 (parse_metadata_first_match content))
             "" "somepkg" (String newline ("Version: 1.0" ++ String newline ""))).
    + reflexivity.
    + split; [by eexists|]. intros; simpl; lia.
    + split; [reflexivity|]. right. by eexists _, _.
  - apply (proj2 (parse_metadata_first_match _)). vm_compute.
    repeat constructor; by apply search_None.
Defined.

(** ** Reading the metadata *)

Section MetadataFacts.

Context (json_loads : string → option Metadata).
Context (decode_utf8 : string → option string).

Lemma zip_open_KeyError whl member :
  zip_open whl member = Raise KeyError ↔ getinfo whl member = None.
Proof.
  unfold zip_open. destruct (getinfo whl member) as [e|]; [|done].
  by destruct (body e).
Qed.

(** Nothing in the [try] block but a missing member raises KeyError. *)
Lemma rich_block_no_KeyError whl member :
  is_Some (getinfo whl member) →
  (f ← zip_open whl member; raw ← zip_read f; text ← decode decode_utf8 raw; loads json_loads text)
  ≠ Raise KeyError.
Proof.
  intros [e He]. unfold zip_open, decode, loads. rewrite He.
  destruct (body e) as [raw| | |]; try done. simpl.
  destruct (decode_utf8 raw) as [text|]; [|done]. simpl.
  by destruct (json_loads text).
Qed.

Lemma try_except_KeyError_pass {A} (block handler : result A) :
  block ≠ Raise KeyError → try_except_KeyError block handler = block.
Proof. by destruct block as [|[]]. Qed.

Lemma metadata_rich w self whl dist_info :
  ZipFile_open w (path self) = Ok whl → _dist_info self = Ok dist_info →
  is_Some (getinfo whl (dist_info ++ "/metadata.json")) →
  metadata json_loads decode_utf8 w self =
    (f ← zip_open whl (dist_info ++ "/metadata.json");
     raw ← zip_read f; text ← decode decode_utf8 raw; loads json_loads text).
Proof.
  intros Hwhl Hdi Hsome. unfold metadata.
  rewrite Hwhl, Hdi, !bind_Ok.
  by apply try_except_KeyError_pass, rich_block_no_KeyError.
Qed.

Lemma metadata_flat w self whl dist_info :
  ZipFile_open w (path self) = Ok whl → _dist_info self = Ok dist_info →
  getinfo whl (dist_info ++ "/metadata.json") = None →
  metadata json_loads decode_utf8 w self =
    (f ← zip_open whl (dist_info ++ "/METADATA");
     raw ← zip_read f; text ← decode decode_utf8 raw; _parse_metadata text).
Proof.
  intros Hwhl Hdi Hnone. unfold metadata.
  rewrite Hwhl, Hdi, !bind_Ok.
  apply zip_open_KeyError in Hnone. by rewrite Hnone.
Qed.

(** C3: with the archive open and its dist-info name known, a present
    [metadata.json] alone decides the result, which is its parsed record
    when it reads, decodes and parses; the flat [METADATA] is read exactly
    when [metadata.json] is not a member, which is when opening it raises
    KeyError; any other error of opening it is the error of the call. *)
Theorem metadata_one_encoding w self whl dist_info :
  ZipFile_open w (path self) = Ok whl → _dist_info self = Ok dist_info →
  let rich := dist_info ++ "/metadata.json" in
  let flat := dist_info ++ "/METADATA" in
  (is_Some (getinfo whl rich) →
     metadata json_loads decode_utf8 w self =
       (f ← zip_open whl rich; raw ← zip_read f; text ← decode decode_utf8 raw; loads json_loads text))
  ∧ (∀ raw text md,
       zip_open whl rich = Ok (Stored raw) → decode_utf8 raw = Some text →
       json_loads text = Some md → metadata json_loads decode_utf8 w self = Ok md)
  ∧ (getinfo whl rich = None →
       metadata json_loads decode_utf8 w self =
         (f ← zip_open whl flat; raw ← zip_read f; text ← decode decode_utf8 raw;
          _parse_metadata text))
  ∧ (zip_open whl rich = Raise KeyError ↔ getinfo whl rich = None)
  ∧ (∀ e, zip_open whl rich = Raise e → e ≠ KeyError → metadata json_loads decode_utf8 w self = Raise e).
Proof.
  intros Hwhl Hdi rich flat.
  split; [by apply metadata_rich|]. split; [|split; [|split]].
  - intros raw text md Hopen Hdec Hload.
    rewrite (metadata_rich _ _ _ _ Hwhl Hdi).
    + fold rich. rewrite Hopen. unfold decode, loads. simpl.
      rewrite Hdec. simpl. by rewrite Hload.
    + fold rich. destruct (getinfo whl rich) eqn:Hget; [done|].
      apply zip_open_KeyError in Hget. congruence.
  - by apply metadata_flat.
  - apply zip_open_KeyError.
  - intros e Hopen Hne. rewrite (metadata_rich _ _ _ _ Hwhl Hdi).
    + fold rich. by rewrite Hopen.
    + fold rich. destruct (getinfo whl rich) eqn:Hget; [done|].
      apply zip_open_KeyError in Hget. congruence.
Qed.

Lemma leftmost_after_two c1 c2 after :
  c1 ≠ "N"%char → c2 ≠ "N"%char →
  leftmost "Name: " (String c1 (String c2 "")) (String c1 (String c2 ("Name: " ++ after))).
Proof.
  intros H1 H2. split; [by exists after|].
  intros [|d1 [|d2 b]] a Hb; simpl; [..|lia].
  - change ("" ++ "Name: " ++ a) with (String "N" ("ame: " ++ a)) in Hb.
    by injection Hb as -> _.
  - change (String d1 "" ++ "Name: " ++ a)
      with (String d1 (String "N" ("ame: " ++ a))) in Hb.
    by injection Hb as _ -> _.
Qed.

(** C10: [name()] on an archive with the flat form only is the capture at
    the leftmost place where [Name: ] occurs in the text, wherever in a
    line that is, and the capture ends with that line; so in a text that
    begins [X-Name: other] the name is [other], whatever follows. *)
Theorem name_unanchored w self whl dist_info raw text :
  ZipFile_open w (path self) = Ok whl → _dist_info self = Ok dist_info →
  getinfo whl (dist_info ++ "/metadata.json") = None →
  (f ← zip_open whl (dist_info ++ "/METADATA"); zip_read f) = Ok raw →
  decode_utf8 raw = Some text →
  (∀ before g after,
     text = before ++ "Name: " ++ g ++ after →
     leftmost "Name: " before text → to_end_of_line g after →
     name json_loads decode_utf8 w self = Ok (Some g))
  ∧ (∀ other rest,
       text = "X-Name: " ++ other ++ rest → to_end_of_line other rest →
       name json_loads decode_utf8 w self = Ok (Some other)).
Proof.
  intros Hwhl Hdi Hnone Hread Hdec.
  assert (∀ before g after,
     text = before ++ "Name: " ++ g ++ after →
     leftmost "Name: " before text → to_end_of_line g after →
     name json_loads decode_utf8 w self = Ok (Some g)) as Hname.
  { intros before g after -> Hleft Hend. unfold name.
    rewrite (metadata_flat _ _ _ _ Hwhl Hdi Hnone).
    destruct (zip_open whl _) as [f|]; [|done].
    rewrite bind_Ok in Hread. rewrite bind_Ok, Hread, bind_Ok. unfold decode. rewrite Hdec, bind_Ok.
    by rewrite parse_metadata_leftmost. }
  split; [done|]. intros other rest -> Hend.
  apply (Hname "X-" other rest); [done| |done].
  by apply leftmost_after_two.
Qed.

End MetadataFacts.

(** ** Dependencies *)

Lemma is_bare_name_take_until entry bare :
  is_bare_name entry bare ↔ bare = bare_name entry.
Proof.
  unfold bare_name. split.
  - intros (rest & -> & Hclean & Hrest). by rewrite take_until_app.
  - intros ->. destruct (take_until_split qualifier_char entry) as (rest & ? & ?).
    exists rest. split; [done|]. split; [apply take_until_clean|done].
Qed.

Lemma add_entry_bare s entry : add_entry s entry = Ok (s ∪ {[ bare_name entry ]}).
Proof.
  unfold add_entry, bare_name.
  by destruct (split_by_head qualifier_char entry) as [t ->].
Qed.

Lemma for_each_add_entry requires s :
  for_each add_entry requires s = Ok (s ∪ list_to_set (bare_name <$> requires)).
Proof.
  revert s. induction requires as [|entry requires IH]; intros s; simpl.
  - by rewrite (right_id_L ∅ (∪)).
  - by rewrite add_entry_bare, bind_Ok, IH, (assoc_L (∪)).
Qed.

Lemma sorted_elem_of (s : gset string) x : x ∈ sorted (elements s) ↔ x ∈ s.
Proof. unfold sorted. by rewrite merge_sort_Permutation, elem_of_elements. Qed.

Lemma sorted_NoDup (s : gset string) : NoDup (sorted (elements s)).
Proof. unfold sorted. rewrite merge_sort_Permutation. apply NoDup_elements. Qed.

Lemma sorted_ascending l : StronglySorted String.le (sorted l).
Proof. apply StronglySorted_merge_sort; apply _. Qed.

Lemma sorted_empty : sorted (elements (∅ : gset string)) = [].
Proof. by rewrite elements_empty. Qed.

Section DependencyFacts.

Context (evaluate_marker : string → result bool).

Local Abbreviation ev := evaluate_marker.

Implicit Types (g : RequirementGroup) (extra : option string) (s : gset string).

Lemma str_truthy_ne m : str_truthy m = true ↔ m ≠ "".
Proof.
  unfold str_truthy. rewrite negb_true_iff.
  by destruct (String.eqb_spec m "").
Qed.

Lemma marker_excludes_false g :
  marker_excludes ev (rg_environment g) = Ok false ↔ marker_passes ev g.
Proof.
  unfold marker_excludes, marker_passes.
  destruct (rg_environment g) as [m|]; [|done].
  destruct (str_truthy m) eqn:Hm.
  - apply str_truthy_ne in Hm. destruct (ev m) as [[]|e]; simpl; intuition congruence.
  - apply not_true_iff_false in Hm. rewrite str_truthy_ne in Hm.
    destruct (decide (m = "")); intuition congruence.
Qed.

Lemma group_selected_other extra g :
  rg_extra g ≠ extra → group_selected ev extra g = Ok false.
Proof. intros Hne. unfold group_selected. by rewrite bool_decide_eq_true_2. Qed.

Lemma group_selected_same extra g :
  rg_extra g = extra →
  group_selected ev extra g
  = (skip ← marker_excludes ev (rg_environment g); Ok (negb skip)).
Proof.
  intros Heq. unfold group_selected. rewrite bool_decide_eq_false_2; [done|].
  by intros ?.
Qed.

Lemma group_selected_true extra g :
  group_selected ev extra g = Ok true ↔ group_matches ev extra g.
Proof.
  unfold group_matches. rewrite <- marker_excludes_false.
  destruct (decide (rg_extra g = extra)) as [Heq|Hne].
  - rewrite group_selected_same by done.
    destruct (marker_excludes ev _) as [[]|]; simpl; intuition congruence.
  - rewrite group_selected_other by done. intuition congruence.
Qed.

Lemma group_selected_evaluable extra g :
  marker_evaluable ev extra g → ∃ b, group_selected ev extra g = Ok b.
Proof.
  intros Hev. destruct (decide (rg_extra g = extra)) as [Heq|Hne].
  - rewrite group_selected_same by done. specialize (Hev Heq).
    unfold marker_excludes. destruct (rg_environment g) as [m|]; [|by eexists].
    destruct (str_truthy m) eqn:Hm; [|by eexists].
    apply str_truthy_ne in Hm. destruct (Hev m eq_refl Hm) as [b ->]. by eexists.
  - rewrite group_selected_other by done. by eexists.
Qed.

Lemma requirement_step_selected extra s g :
  group_selected ev extra g = Ok true →
  requirement_step ev extra s g = Ok (s ∪ group_names g).
Proof.
  intros Hsel. unfold requirement_step. rewrite Hsel, bind_Ok.
  apply for_each_add_entry.
Qed.

Lemma requirement_step_skipped extra s g :
  group_selected ev extra g = Ok false → requirement_step ev extra s g = Ok s.
Proof. intros Hsel. unfold requirement_step. by rewrite Hsel. Qed.

Lemma requirement_step_raise extra s g e :
  group_selected ev extra g = Raise e → requirement_step ev extra s g = Raise e.
Proof. intros Hsel. unfold requirement_step. by rewrite Hsel. Qed.

(** The loop collects the names of the groups that match. *)
Lemma for_each_requirement_step extra groups s :
  Forall (marker_evaluable ev extra) groups →
  ∃ s',
    for_each (requirement_step ev extra) groups s = Ok s'
    ∧ ∀ x, x ∈ s' ↔
           x ∈ s ∨ ∃ g, g ∈ groups ∧ group_matches ev extra g ∧ x ∈ group_names g.
Proof.
  intros Hev. revert s. induction Hev as [|g groups Hg _ IH]; intros s; simpl.
  - exists s. split; [done|]. intros x. split; [auto|].
    intros [?|(g & []%elem_of_nil & _)]; done.
  - destruct (group_selected_evaluable _ _ Hg) as [[] Hsel].
    + rewrite (requirement_step_selected _ _ _ Hsel), bind_Ok.
      destruct (IH (s ∪ group_names g)) as (s' & -> & Hs'). exists s'.
      split; [done|]. intros x. rewrite Hs', elem_of_union.
      apply group_selected_true in Hsel. split.
      * intros [[?|?]|(g' & ? & ? & ?)]; [by left|right..].
        -- exists g. by rewrite elem_of_cons; auto.
        -- exists g'. by rewrite elem_of_cons; auto.
      * intros [?|(g' & [->|?]%elem_of_cons & ? & ?)]; [auto..|].
        right. by exists g'.
    + rewrite (requirement_step_skipped _ _ _ Hsel), bind_Ok.
      destruct (IH s) as (s' & -> & Hs'). exists s'.
      split; [done|]. intros x. rewrite Hs'.
      assert (¬ group_matches ev extra g) as Hno.
      { rewrite <- group_selected_true. congruence. }
      split.
      * intros [?|(g' & ? & ? & ?)]; [by left|right].
        exists g'. by rewrite elem_of_cons; auto.
      * intros [?|(g' & [->|?]%elem_of_cons & ? & ?)]; [auto|done|].
        right. by exists g'.
Qed.

End DependencyFacts.

Lemma for_each_app {A S} (step : S → A → result S) l1 l2 s :
  for_each step (l1 ++ l2) s = (s' ← for_each step l1 s; for_each step l2 s').
Proof.
  revert s. induction l1 as [|x l1 IH]; intros s; simpl; [done|].
  destruct (step s x) as [s'|e]; [|done]. by rewrite !bind_Ok.
Qed.


Lemma for_each_skip {A S} (step : S → A → result S) l s :
  Forall (λ x, ∀ s, step s x = Ok s) l → for_each step l s = Ok s.
Proof.
  intros Hskip. induction Hskip as [|x l Hx _ IH]; simpl; [done|].
  by rewrite Hx, bind_Ok.
Qed.

Lemma elem_of_group_names g x :
  x ∈ group_names g ↔
  ∃ entry, entry ∈ get_default (rg_requires g) [] ∧ is_bare_name entry x.
Proof.
  unfold group_names. rewrite elem_of_list_to_set, list_elem_of_fmap.
  split; intros (entry & ? & ?); exists entry; by rewrite is_bare_name_take_until in *.
Qed.

Section DependencyClaims.

Context (json_loads : string → option Metadata).
Context (decode_utf8 : string → option string).
Context (evaluate_marker : string → result bool).

Local Abbreviation ev := evaluate_marker.

Implicit Types (g : RequirementGroup) (extra : option string) (s : gset string).

Lemma dependencies_read w self md extra :
  metadata json_loads decode_utf8 w self = Ok md →
  dependencies json_loads decode_utf8 ev w self extra = dependencies_of ev md extra.
Proof. intros Hmd. unfold dependencies. by rewrite Hmd. Qed.

(** C1: when the record is read and the markers that the loop evaluates
    have a value, [dependencies] returns a sequence whose members are
    exactly the bare names of the requirement strings of the matching
    groups, a bare name being the string cut at its first character among
    space, [<], [>], [=] and the two parentheses (the whole string when it
    has none); the sequence has no duplicate and ascends in the
    lexicographic order. *)
Theorem dependencies_bare_names_sorted w self md extra :
  metadata json_loads decode_utf8 w self = Ok md →
  Forall (marker_evaluable ev extra) (get_default (md_run_requires md) []) →
  ∃ names,
    dependencies json_loads decode_utf8 ev w self extra = Ok names
    ∧ (∀ x, x ∈ names ↔
         ∃ g entry,
           g ∈ get_default (md_run_requires md) []
           ∧ group_matches ev extra g
           ∧ entry ∈ get_default (rg_requires g) []
           ∧ is_bare_name entry x)
    ∧ NoDup names
    ∧ StronglySorted String.le names.
Proof.
  intros Hmd Hev. rewrite (dependencies_read _ _ _ _ Hmd). unfold dependencies_of.
  destruct (for_each_requirement_step ev extra _ ∅ Hev) as (s' & -> & Hs').
  rewrite bind_Ok. eexists. split; [done|]. split; [|split].
  - intros x. rewrite sorted_elem_of, Hs'. split.
    + intros [[]%not_elem_of_empty|(g & ? & ? & (entry & ? & ?)%elem_of_group_names)].
      by exists g, entry.
    + intros (g & entry & ? & ? & ? & ?). right. exists g.
      rewrite elem_of_group_names. eauto.
  - apply sorted_NoDup.
  - apply sorted_ascending.
Qed.


(** C4, as the code has it: nothing catches the error of the evaluator;
    when the loop reaches a group of the requested extra whose marker is
    not empty and cannot be evaluated, [dependencies] fails with the
    error of the evaluator. *)
Theorem unevaluable_marker_raises w self md extra
    (before after : list RequirementGroup) g m e :
  metadata json_loads decode_utf8 w self = Ok md →
  get_default (md_run_requires md) [] = (before ++ g :: after)%list →
  Forall (marker_evaluable ev extra) before →
  rg_extra g = extra → rg_environment g = Some m → m ≠ "" →
  ev m = Raise e →
  group_selected ev extra g = Raise e ∧ dependencies json_loads decode_utf8 ev w self extra = Raise e.
Proof.
  intros Hmd Hgroups Hbefore Hextra Hmarker Hm He.
  assert (group_selected ev extra g = Raise e) as Hsel.
  { rewrite group_selected_same by done. unfold marker_excludes.
    rewrite Hmarker. apply str_truthy_ne in Hm. by rewrite Hm, He. }
  split; [done|].
  rewrite (dependencies_read _ _ _ _ Hmd). unfold dependencies_of.
  rewrite Hgroups, for_each_app.
  destruct (for_each_requirement_step ev extra _ ∅ Hbefore) as (s' & -> & _).
  rewrite bind_Ok. simpl. by rewrite (requirement_step_raise _ _ _ _ _ Hsel).
Qed.



End DependencyClaims.

(** ** Expansion *)

Lemma executable_mode_low mask : executable_mode (Z.land mask 511) = executable_mode mask.
Proof.
  unfold executable_mode. f_equal. apply Z.bits_inj'. intros n Hn.
  rewrite !Z.land_spec, !Z.lnot_spec, Z.land_spec by lia.
  by destruct (Z.testbit 511 n), (Z.testbit mask n).
Qed.

Lemma S_ISREG_truthy mode : S_ISREG mode = true → int_truthy mode = true.
Proof.
  unfold S_ISREG, int_truthy. intros Hreg%Z.eqb_eq.
  destruct (Z.eqb_spec mode 0) as [->|]; [done|done].
Qed.

Lemma current_umask_value w :
  current_umask w = (umask w, set_umask (Z.land (umask w) 511) w).
Proof. reflexivity. Qed.

Lemma set_mode_chmod p w :
  set_extracted_file_to_default_mode_plus_executable p w =
    match files w !! p with
    | None => Raise FileNotFoundError
    | Some f =>
        Ok {| files := <[p := with_mode (executable_mode (umask w)) f]> (files w);
              umask := Z.land (umask w) 511 |}
    end.
Proof.
  unfold set_extracted_file_to_default_mode_plus_executable.
  rewrite current_umask_value. unfold os_chmod. simpl.
  by destruct (files w !! p).
Qed.

Lemma expand_step_cases directory w i :
  expand_step directory w i =
    if stored_executable i
    then set_extracted_file_to_default_mode_plus_executable
           (extracted_path directory i) w
    else Ok w.
Proof.
  unfold expand_step, stored_executable, is_directory_name, stored_mode.
  destruct (Str.endswith (filename i) "/" || Str.endswith (filename i) "\"); [done|].
  simpl. destruct (S_ISREG _) eqn:Hreg.
  - by rewrite (S_ISREG_truthy _ Hreg).
  - by rewrite andb_false_r.
Qed.

(** The loop over the members, from any state in which the files it touches
    exist: it ends, the files it names get the executable mode, every other
    file stays as it is. *)
Lemma for_each_expand_step directory infos w1 :
  Forall (λ p, is_Some (files w1 !! p)) (executable_paths directory infos) →
  ∃ w2,
    for_each (expand_step directory) infos w1 = Ok w2
    ∧ executable_mode (umask w2) = executable_mode (umask w1)
    ∧ ∀ p, files w2 !! p =
           if decide (p ∈ executable_paths directory infos)
           then with_mode (executable_mode (umask w1)) <$> files w1 !! p
           else files w1 !! p.
Proof.
  revert w1. induction infos as [|i infos IH]; intros w1 Hexist.
  - exists w1. split; [done|]. split; [done|]. intros p.
    destruct (decide _) as [[]%elem_of_nil|]; done.
  - simpl. rewrite expand_step_cases. unfold executable_paths in *.
    rewrite filter_cons in *. destruct (decide (stored_executable i = true)) as [Hi|Hi].
    + rewrite Hi, set_mode_chmod. rewrite fmap_cons in Hexist.
      apply Forall_cons in Hexist as [[f Hf] Hexist]. rewrite Hf, bind_Ok.
      set (p0 := extracted_path directory i) in *.
      set (w' := {| files := _; umask := _ |}).
      destruct (IH w') as (w2 & -> & Hmask & Hfiles).
      { eapply Forall_impl; [exact Hexist|]. intros p [g Hg]. simpl.
        destruct (decide (p0 = p)) as [<-|Hne].
        - rewrite lookup_insert_eq. by eexists.
        - rewrite lookup_insert_ne by done. by eexists. }
      exists w2. split; [done|].
      assert (executable_mode (umask w') = executable_mode (umask w1)) as Hw'
        by apply executable_mode_low.
      split; [by rewrite Hmask|]. intros p. rewrite Hfiles, Hw', fmap_cons.
      fold p0. simpl. destruct (decide (p0 = p)) as [<-|Hne].
      * rewrite lookup_insert_eq, Hf.
        rewrite (decide_True (P := p0 ∈ p0 :: _)) by (by left).
        by destruct (decide _).
      * rewrite lookup_insert_ne by done.
        destruct (decide (p ∈ _)) as [Hin|Hout].
        -- rewrite decide_True; [done|]. by right.
        -- rewrite decide_False; [done|]. by intros [?|?]%elem_of_cons.
    + apply not_true_is_false in Hi. rewrite Hi, bind_Ok.
      destruct (IH w1 Hexist) as (w2 & -> & Hmask & Hfiles). by exists w2.
Qed.

Section ExpandFacts.

Context (extractall : ZipFile → string → World → result World).

Context (entry_path : string → ZipInfo → string).

(** C5, as the code has it.  [entry_path directory i] is where the
    extraction writes the member [i].  When the archive opens and extracts,
    every member has its entry, and the entries of the members that the
    loop takes for executable files are where the loop looks for them, at
    [os.path.join(directory, name)], then [expand] returns; the entry of
    every member whose name does not end with a slash or backslash, whose
    stored mode (the high 16 bits of its external attributes) is that of a
    regular file and has an execute bit, gets the mode 0o777 without the
    bits of the umask of the process, with 0o111 set; the entry of a member
    whose name ends with a slash or backslash, whose stored mode is not that
    of a regular file, or which has no stored execute bit keeps the mode the
    extraction gave it, unless it is also the entry of such an executable
    member. *)
Theorem expand_sets_modes_of_entries w self directory whl w1 :
  ZipFile_open w (path self) = Ok whl →
  extractall whl directory w = Ok w1 →
  Forall (λ i, is_Some (files w1 !! entry_path directory i)) (infolist whl) →
  Forall (λ i, stored_executable i = true →
               entry_path directory i = os_path_join directory (filename i))
    (infolist whl) →
  ∃ w2,
    expand extractall w self directory = Ok w2
    ∧ (∀ i, i ∈ infolist whl →
         is_directory_name (filename i) = false →
         S_ISREG (stored_mode i) = true →
         Z.land (stored_mode i) 73 ≠ 0 →
         st_mode <$> files w2 !! entry_path directory i
         = Some (Z.lor (Z.land 511 (Z.lnot (umask w1))) 73))
    ∧ (∀ i, i ∈ infolist whl →
         is_directory_name (filename i) = true
         ∨ S_ISREG (stored_mode i) = false
         ∨ Z.land (stored_mode i) 73 = 0 →
         (∀ j, j ∈ infolist whl → stored_executable j = true →
               entry_path directory j ≠ entry_path directory i) →
         files w2 !! entry_path directory i = files w1 !! entry_path directory i).
Proof.
  intros Hwhl Hextract Hentries Hplace.
  rewrite Forall_forall in Hentries, Hplace.
  assert (∀ p, p ∈ executable_paths directory (infolist whl) ↔
               ∃ j, j ∈ infolist whl ∧ stored_executable j = true
                    ∧ p = entry_path directory j) as Hpaths.
  { intros p. unfold executable_paths. rewrite list_elem_of_fmap. split.
    - intros (j & -> & [Hj Hin]%list_elem_of_filter). exists j.
      split; [done|]. split; [done|]. by rewrite Hplace.
    - intros (j & Hin & Hj & ->). exists j. split.
      + by rewrite Hplace.
      + by apply list_elem_of_filter. }
  assert (Forall (λ p, is_Some (files w1 !! p))
            (executable_paths directory (infolist whl))) as Hexist.
  { apply Forall_forall. intros p (j & Hin & _ & ->)%Hpaths. by apply Hentries. }
  destruct (for_each_expand_step directory _ w1 Hexist) as (w2 & Hloop & _ & Hfiles).
  exists w2. split.
  { unfold expand. by rewrite Hwhl, bind_Ok, Hextract, bind_Ok. }
  split.
  - intros i Hi Hdir Hreg Hexec.
    assert (stored_executable i = true) as Hstored.
    { unfold stored_executable. rewrite Hdir, Hreg.
      apply Z.eqb_neq in Hexec. by rewrite Hexec. }
    rewrite Hfiles, decide_True by (apply Hpaths; by exists i).
    destruct (Hentries i Hi) as [f ->]. done.
  - intros i Hi _ Hother. rewrite Hfiles, decide_False; [done|].
    intros (j & Hj & Hstored & Heq)%Hpaths. by apply (Hother j).
Qed.

End ExpandFacts.

(** * The methods on the example *)

Section Witnesses.

Import Example.

Local Abbreviation ev := Example.evaluate_marker.

Lemma example_metadata : metadata json_loads decode_utf8 world wheel = Ok record.
Proof. by vm_compute. Qed.

Lemma example_evaluable :
  Forall (marker_evaluable ev None) (get_default (md_run_requires record) []).
Proof.
  repeat constructor; intros Hextra m Hm Hne; vm_compute in Hextra, Hm;
    simplify_eq; by eexists.
Qed.

Lemma dependencies_bare_names_sorted_witness :
  metadata json_loads decode_utf8 world wheel = Ok record
  ∧ Forall (marker_evaluable ev None) (get_default (md_run_requires record) [])
  ∧ ∃ names,
      dependencies json_loads decode_utf8 ev world wheel None = Ok names
      ∧ names = ["attrs"; "bar"; "foo"; "six"]
      ∧ NoDup names ∧ StronglySorted String.le names.
Proof.
  split; [exact example_metadata|]. split; [exact example_evaluable|].
  destruct (dependencies_bare_names_sorted json_loads decode_utf8 ev
              world wheel record None example_metadata example_evaluable)
    as (names & Hnames & _ & Hnodup & Hsorted).
  exists names. split; [exact Hnames|]. split; [|by split].
  vm_compute in Hnames. by injection Hnames as <-.
Defined.



Lemma unevaluable_marker_raises_witness :
  metadata json_loads decode_utf8 world broken_wheel = Ok broken_record
  ∧ ev "no such marker" = Raise SyntaxError
  ∧ dependencies json_loads decode_utf8 ev world broken_wheel None
    = Raise SyntaxError.
Proof.
  assert (metadata json_loads decode_utf8 world broken_wheel = Ok broken_record)
    as Hmd by (by vm_compute).
  split; [exact Hmd|]. split; [reflexivity|].
  apply (unevaluable_marker_raises json_loads decode_utf8 ev world broken_wheel
           broken_record None [base] [] bad_marker "no such marker" SyntaxError
           Hmd eq_refl).
  - repeat constructor. intros _ m Hm. by vm_compute in Hm.
  - reflexivity.
  - reflexivity.
  - by intros Hm.
  - reflexivity.
Defined.

(** C4 as stated fails: the marker of a group of the requested extra cannot
    be evaluated, and the call fails with the error of the evaluator. *)
Lemma unevaluable_marker_not_swallowed :
  bad_marker ∈ get_default (md_run_requires broken_record) []
  ∧ rg_environment bad_marker = Some "no such marker"
  ∧ ev "no such marker" = Raise SyntaxError
  ∧ dependencies json_loads decode_utf8 ev world broken_wheel None
    = Raise SyntaxError
  ∧ ¬ ∃ names,
        dependencies json_loads decode_utf8 ev world broken_wheel None = Ok names.
Proof.
  split; [apply list_elem_of_In; simpl; auto|].
  split; [done|]. split; [done|]. split; [by vm_compute|].
  intros [names Hnames]. by vm_compute in Hnames.
Qed.


Lemma metadata_one_encoding_witness :
  ZipFile_open world (path wheel) = Ok whl
  ∧ _dist_info wheel = Ok "example-1.0.dist-info"
  ∧ metadata json_loads decode_utf8 world wheel = Ok record.
Proof.
  assert (ZipFile_open world (path wheel) = Ok whl) as Hwhl by (by vm_compute).
  assert (_dist_info wheel = Ok "example-1.0.dist-info") as Hdi by (by vm_compute).
  split; [exact Hwhl|]. split; [exact Hdi|].
  destruct (metadata_one_encoding json_loads decode_utf8 world wheel whl
              "example-1.0.dist-info" Hwhl Hdi) as (_ & Hrich & _).
  by apply (Hrich "{example}" "{example}" record).
Defined.

Lemma name_unanchored_witness :
  ZipFile_open world (path flat_wheel) = Ok flat_whl
  ∧ _dist_info flat_wheel = Ok "flat-2.0.dist-info"
  ∧ getinfo flat_whl ("flat-2.0.dist-info" ++ "/metadata.json") = None
  ∧ name json_loads decode_utf8 world flat_wheel = Ok (Some "other").
Proof.
  assert (ZipFile_open world (path flat_wheel) = Ok flat_whl) as Hwhl
    by (by vm_compute).
  assert (_dist_info flat_wheel = Ok "flat-2.0.dist-info") as Hdi by (by vm_compute).
  split; [exact Hwhl|]. split; [exact Hdi|]. split; [reflexivity|].
  destruct (name_unanchored json_loads decode_utf8 world flat_wheel flat_whl
              "flat-2.0.dist-info"
              ("X-Name: other" ++ line "" (line "Name: real" ""))
              ("X-Name: other" ++ line "" (line "Name: real" ""))
              Hwhl Hdi eq_refl eq_refl eq_refl) as (_ & Hx).
  apply (Hx "other" (line "" (line "Name: real" ""))); [reflexivity|].
  split; [reflexivity|]. right. by eexists _, _.
Defined.

Lemma expand_sets_modes_of_entries_witness :
  ZipFile_open world (path wheel) = Ok whl
  ∧ ∃ w2,
      expand extract_entries world wheel "out" = Ok w2
      ∧ st_mode <$> files w2 !! "out/bin/run" = Some 493
      ∧ st_mode <$> files w2 !! "out/pkg/a.py" = Some 420
      ∧ st_mode <$> files w2 !! "out/pkg" = Some 493.
Proof.
  assert (ZipFile_open world (path wheel) = Ok whl) as Hwhl by (by vm_compute).
  split; [exact Hwhl|].
  destruct (expand_sets_modes_of_entries extract_entries entry_path world wheel "out"
              whl _ Hwhl eq_refl) as (w2 & Hexpand & Hexec & Hkeep).
  { vm_compute. repeat constructor; by eexists. }
  { repeat constructor; intros Hstored; by vm_compute in Hstored |- *. }
  exists w2. split; [exact Hexpand|]. split; [|split].
  - apply (Hexec run_info); [by vm_compute; repeat constructor|done..].
  - change "out/pkg/a.py" with (entry_path "out" module_info).
    rewrite (Hkeep module_info); [by vm_compute| |by right; right|].
    + by vm_compute; repeat constructor.
    + intros j Hj Hstored Heq. vm_compute in Hj.
      repeat (apply elem_of_cons in Hj as [->|Hj]);
        try (by vm_compute in Hstored); try (by vm_compute in Heq).
      by apply elem_of_nil in Hj.
  - change "out/pkg" with (entry_path "out" package_info).
    rewrite (Hkeep package_info); [by vm_compute| |by left|].
    + by vm_compute; repeat constructor.
    + intros j Hj Hstored Heq. vm_compute in Hj.
      repeat (apply elem_of_cons in Hj as [->|Hj]);
        try (by vm_compute in Hstored); try (by vm_compute in Heq).
      by apply elem_of_nil in Hj.
Defined.

(** C5 as stated fails.  A member stored with the permission bits 0o755 and
    no file type is extracted as a plain file and keeps the mode 0o644 of
    the extraction.  A member with an absolute name and the mode 0o100755
    is extracted under the destination, where it keeps 0o644, while the file
    of that absolute name, outside the destination, gets 0o755; without such
    a file [expand] raises. *)
Lemma expand_misses_extracted_entries :
  executable_mode (umask host) = 493
  ∧ (Z.land (stored_mode typeless_info) 73 ≠ 0
     ∧ ∃ w2,
         expand extract_entries host typeless_wheel "out" = Ok w2
         ∧ files w2 !! entry_path "out" typeless_info
           = Some {| st_mode := 420; st_content := Data "#!/bin/sh" |})
  ∧ (stored_executable absolute_info = true
     ∧ entry_path "out" absolute_info = "out/usr/bin/tool"
     ∧ ∃ w2,
         expand extract_entries host absolute_wheel "out" = Ok w2
         ∧ st_mode <$> files w2 !! "out/usr/bin/tool" = Some 420
         ∧ st_mode <$> files w2 !! "/usr/bin/tool" = Some 493)
  ∧ expand extract_entries bare_host absolute_wheel "out" = Raise FileNotFoundError.
Proof.
  split; [by vm_compute|]. split; [|split].
  - split; [by vm_compute|]. eexists. split; by vm_compute.
  - split; [by vm_compute|]. split; [by vm_compute|].
    eexists. split; [by vm_compute|]. split; by vm_compute.
  - by vm_compute.
Qed.

End Witnesses.


(** * Further properties of the code *)

(** ** File names *)

Section SplitFacts.

Variable sep : ascii → bool.

Implicit Types (s t : string) (c : ascii).

Lemma split_by_clean s :
  Str.all (λ c, negb (sep c)) s = true → Str.split_by sep s = [s].
Proof.
  induction s as [|c s IH]; [done|]. simpl.
  intros [Hc Hs]%andb_true_iff. apply negb_true_iff in Hc.
  by rewrite Hc, IH.
Qed.

Lemma split_by_app_sep s c t :
  Str.all (λ c, negb (sep c)) s = true → sep c = true →
  Str.split_by sep (s ++ String c t) = s :: Str.split_by sep t.
Proof.
  intros Hs Hc. induction s as [|d s IH].
  - rewrite app_empty_l. simpl. by rewrite Hc.
  - rewrite app_cons. simpl in *. apply andb_true_iff in Hs as [Hd Hs].
    apply negb_true_iff in Hd. by rewrite Hd, IH.
Qed.

(** Whatever is in front of a separator adds pieces in front. *)
Lemma split_by_after_sep s c t :
  sep c = true →
  ∃ front, front ≠ [] ∧ Str.split_by sep (s ++ String c t) = (front ++ Str.split_by sep t)%list.
Proof.
  intros Hc. induction s as [|d s (front & Hne & IH)].
  - exists [""]. split; [done|]. rewrite app_empty_l. simpl. by rewrite Hc.
  - rewrite app_cons. simpl. destruct (sep d).
    + exists ("" :: front). split; [done|]. by rewrite IH.
    + rewrite IH. destruct front as [|h front]; [done|].
      by exists (String d h :: front).
Qed.

Lemma split_by_dirty s :
  Str.all (λ c, negb (sep c)) s = false →
  ∃ a b rest, Str.split_by sep s = a :: b :: rest.
Proof.
  induction s as [|c s IH]; [done|]. simpl. destruct (sep c) eqn:Hc; simpl.
  - intros _. destruct (split_by_head sep s) as [t ->]. by eexists _, _, _.
  - intros (a & b & rest & ->)%IH. by eexists _, _, _.
Qed.

End SplitFacts.

Lemma last_app_nonempty {A} (l1 l2 : list A) d :
  l2 ≠ [] → List.last (l1 ++ l2) d = List.last l2 d.
Proof.
  intros Hne. induction l1 as [|x l1 IH]; [done|].
  simpl. rewrite IH. by destruct (l1 ++ l2)%list eqn:Happ;
    [apply app_eq_nil in Happ as [_ ?]|].
Qed.

Lemma os_path_basename_file dir base :
  free_of "/" base = true → os_path_basename (dir ++ "/" ++ base) = base.
Proof.
  intros Hbase. unfold os_path_basename.
  destruct (split_by_after_sep (Str.is_char "/") dir "/" base eq_refl)
    as (front & _ & Hsplit).
  change (dir ++ "/" ++ base) with (dir ++ String "/" base).
  rewrite Hsplit, last_app_nonempty, split_by_clean; try done.
  by rewrite split_by_clean.
Qed.

Lemma os_path_basename_bare base :
  free_of "/" base = true → os_path_basename base = base.
Proof. intros Hbase. unfold os_path_basename. by rewrite split_by_clean. Qed.

(** X1: the identity of a wheel is read off the file name alone: with a
    file name that has no slash, the basename is that name whatever the
    directory in front, and so are the distribution, the version, the
    suffix and the dist-info name. *)
Theorem identity_ignores_directory (dir base : string) :
  free_of "/" base = true →
  let there := {| _path := dir ++ "/" ++ base |} in
  let here := {| _path := base |} in
  basename there = base ∧ basename here = base
  ∧ distribution there = distribution here
  ∧ version there = version here
  ∧ repository_suffix there = repository_suffix here
  ∧ _dist_info there = _dist_info here.
Proof.
  intros Hbase there here.
  assert (basename there = base) as Hthere by by apply os_path_basename_file.
  assert (basename here = base) as Hhere by by apply os_path_basename_bare.
  unfold repository_suffix, _dist_info, distribution, version.
  by rewrite Hthere, Hhere.
Qed.

Lemma identity_ignores_directory_witness :
  free_of "/" "six-1.10.0-py2.py3-none-any.whl" = true
  ∧ basename {| _path := "/tmp/wheels" ++ "/" ++ "six-1.10.0-py2.py3-none-any.whl" |}
    = "six-1.10.0-py2.py3-none-any.whl".
Proof.
  split; [reflexivity|].
  by apply (identity_ignores_directory "/tmp/wheels" "six-1.10.0-py2.py3-none-any.whl").
Defined.

Lemma distribution_take_until self :
  distribution self = Ok (Str.take_until (Str.is_char "-") (basename self)).
Proof.
  unfold distribution.
  by destruct (split_by_head (Str.is_char "-") (basename self)) as [t ->].
Qed.

Lemma free_of_take_until c s : free_of c (Str.take_until (Str.is_char c) s) = true.
Proof. apply take_until_clean. Qed.

Lemma take_until_rest c s :
  ∃ rest, s = Str.take_until (Str.is_char c) s ++ rest ∧ empty_or_starts c rest.
Proof.
  destruct (take_until_split (Str.is_char c) s) as (rest & Hs & Hrest).
  exists rest. split; [done|]. destruct Hrest as [->|(d & r & -> & Hd)]; [by left|].
  right. apply Ascii.eqb_eq in Hd as <-. by exists r.
Qed.

(** X2: the distribution is the basename up to its first hyphen, and the
    version, when there is one, is what lies between the first hyphen and
    the second or the end; neither contains a hyphen. *)
Theorem distribution_version_prefix (self : Wheel) :
  (∃ d rest,
     distribution self = Ok d ∧ basename self = d ++ rest
     ∧ free_of "-" d = true ∧ empty_or_starts "-" rest)
  ∧ (∀ v, version self = Ok v →
       ∃ d rest,
         distribution self = Ok d ∧ basename self = d ++ "-" ++ v ++ rest
         ∧ free_of "-" v = true ∧ empty_or_starts "-" rest).
Proof.
  destruct (take_until_rest "-" (basename self)) as (rest & Hbase & Hrest).
  split.
  - exists (Str.take_until (Str.is_char "-") (basename self)), rest.
    split; [apply distribution_take_until|]. split; [done|].
    split; [apply free_of_take_until|done].
  - intros v Hv. unfold version in Hv. rewrite Hbase in Hv.
    destruct Hrest as [->|[r ->]].
    + rewrite app_empty_r, split_by_clean in Hv by apply free_of_take_until. done.
    + rewrite split_by_app_sep in Hv by (apply free_of_take_until || done).
      destruct (split_by_head (Str.is_char "-") r) as [t Ht]. rewrite Ht in Hv.
      injection Hv as <-.
      destruct (take_until_rest "-" r) as (rest' & Hr & Hrest').
      exists (Str.take_until (Str.is_char "-") (basename self)), rest'.
      split; [apply distribution_take_until|]. split.
      * rewrite Hbase at 1. by rewrite Hr at 1.
      * split; [apply free_of_take_until|done].
Qed.

Lemma distribution_version_prefix_witness :
  ∃ rest,
    basename {| _path := "wheels/six-1.10.0-py2.py3-none-any.whl" |}
    = "six" ++ "-" ++ "1.10.0" ++ rest
    ∧ empty_or_starts "-" rest.
Proof.
  destruct (proj2 (distribution_version_prefix
                     {| _path := "wheels/six-1.10.0-py2.py3-none-any.whl" |})
              "1.10.0" eq_refl) as (d & rest & Hd & Hbase & _ & Hrest).
  vm_compute in Hd. injection Hd as <-. by exists rest.
Defined.

Lemma dist_info_no_hyphen self :
  free_of "-" (basename self) = true →
  version self = Raise IndexError
  ∧ _dist_info self = Raise IndexError
  ∧ repository_suffix self = Raise IndexError.
Proof.
  intros Hfree.
  assert (version self = Raise IndexError) as Hv.
  { unfold version. by rewrite split_by_clean. }
  unfold _dist_info, repository_suffix.
  by rewrite distribution_take_until, Hv.
Qed.

(** X3: [version], [_dist_info] and [repository_suffix] raise IndexError
    when the basename has no hyphen, and only then: with a hyphen all of
    them return, the dist-info name being the distribution, a hyphen, the
    version and [.dist-info]. *)
Theorem identity_defined_iff_hyphen (self : Wheel) :
  if free_of "-" (basename self)
  then version self = Raise IndexError
       ∧ _dist_info self = Raise IndexError
       ∧ repository_suffix self = Raise IndexError
  else ∃ d v suffix,
         distribution self = Ok d ∧ version self = Ok v
         ∧ _dist_info self = Ok (d ++ "-" ++ v ++ ".dist-info")
         ∧ repository_suffix self = Ok suffix.
Proof.
  destruct (free_of "-" (basename self)) eqn:Hfree.
  - by apply dist_info_no_hyphen.
  - apply split_by_dirty in Hfree as (d & v & rest & Hsplit).
    assert (distribution self = Ok d) as Hd by (unfold distribution; by rewrite Hsplit).
    assert (version self = Ok v) as Hv by (unfold version; by rewrite Hsplit).
    exists d, v. eexists. unfold _dist_info, repository_suffix.
    by rewrite Hd, Hv.
Qed.

Lemma sub_class_avoids cls repl s :
  Str.all (λ c, negb (cls c)) repl = true →
  Str.all (λ c, negb (cls c)) (Str.sub_class cls repl s) = true.
Proof.
  intros Hrepl. induction s as [|c s IH]; [done|]. simpl.
  rewrite all_app, IH, andb_true_r. destruct (cls c) eqn:Hc; [done|].
  simpl. by rewrite Hc.
Qed.

Lemma sub_class_length cls c s :
  String.length (Str.sub_class cls (String c "") s) = String.length s.
Proof.
  induction s as [|d s IH]; [done|]. simpl. rewrite length_app, IH.
  by destruct (cls d).
Qed.

(** X4: a suffix that [repository_suffix] returns has none of the
    characters [-], [.] and [+], begins with [pypi__], and is as long as
    [pypi__], the distribution, an underscore and the version together. *)
Theorem repository_suffix_shape (self : Wheel) (suffix : string) :
  repository_suffix self = Ok suffix →
  Str.all (λ c, negb (illegal_char c)) suffix = true
  ∧ String.prefix "pypi__" suffix = true
  ∧ ∃ d v,
      distribution self = Ok d ∧ version self = Ok v
      ∧ String.length suffix = (7 + String.length d + String.length v)%nat.
Proof.
  unfold repository_suffix. rewrite distribution_take_until, bind_Ok.
  destruct (version self) as [v|e]; [|done]. rewrite bind_Ok. intros [= <-].
  split; [by apply sub_class_avoids|]. split.
  - rewrite sub_class_app. apply prefix_spec. by eexists.
  - eexists _, v. split; [done|]. split; [done|].
    rewrite !length_app, sub_class_length, !length_app. simpl. lia.
Qed.

Lemma repository_suffix_shape_witness :
  repository_suffix {| _path := "wheels/six-1.10.0-py2.py3-none-any.whl" |}
  = Ok "pypi__six_1_10_0"
  ∧ Str.all (λ c, negb (illegal_char c)) "pypi__six_1_10_0" = true.
Proof.
  split; [reflexivity|].
  by apply (repository_suffix_shape
              {| _path := "wheels/six-1.10.0-py2.py3-none-any.whl" |}).
Defined.

Lemma free_of_app c s t : free_of c (s ++ t) = free_of c s && free_of c t.
Proof. apply all_app. Qed.

(** X5: the suffix does not tell a dot from an underscore: two wheel file
    names whose distributions differ in that one character, the rest being
    the same, have different distributions and the same suffix. *)
Theorem repository_suffix_collision (a b rest : string) :
  free_of "/" (a ++ b ++ rest) = true → free_of "-" (a ++ b) = true →
  let dotted := {| _path := a ++ "." ++ b ++ "-" ++ rest |} in
  let plain := {| _path := a ++ "_" ++ b ++ "-" ++ rest |} in
  distribution dotted = Ok (a ++ "." ++ b)
  ∧ distribution plain = Ok (a ++ "_" ++ b)
  ∧ a ++ "." ++ b ≠ a ++ "_" ++ b
  ∧ repository_suffix dotted = repository_suffix plain
  ∧ ∃ suffix, repository_suffix dotted = Ok suffix.
Proof.
  rewrite !free_of_app, !andb_true_iff. intros (Ha & Hb & Hrest) [Ha' Hb'] dotted plain.
  assert (∀ c, free_of "/" (String c "") = true → free_of "-" (String c "") = true →
    let self := {| _path := a ++ String c "" ++ b ++ "-" ++ rest |} in
    distribution self = Ok (a ++ String c "" ++ b)
    ∧ version self = Ok (Str.take_until (Str.is_char "-") rest)) as Hparts.
  { intros c Hc Hc' self.
    assert (basename self = (a ++ String c "" ++ b) ++ String "-" rest) as Hbase.
    { unfold basename, path. simpl. rewrite os_path_basename_bare.
      - by rewrite !app_assoc.
      - rewrite !free_of_app, Ha, Hc, Hb. simpl. exact Hrest. }
    unfold distribution, version. rewrite Hbase, split_by_app_sep; [|
      by rewrite !all_app; fold (free_of "-" a) (free_of "-" (String c "")) (free_of "-" b);
         rewrite Ha', Hc', Hb'|done].
    split; [done|].
    by destruct (split_by_head (Str.is_char "-") rest) as [t ->]. }
  destruct (Hparts "."%char eq_refl eq_refl) as [Hd1 Hv1].
  destruct (Hparts "_"%char eq_refl eq_refl) as [Hd2 Hv2].
  subst dotted plain.
  split; [exact Hd1|]. split; [exact Hd2|]. split.
  { intros Heq. apply (inj (String.app a)) in Heq. discriminate Heq. }
  unfold repository_suffix.
  rewrite Hd1, Hv1, Hd2, Hv2, !bind_Ok. split; [|by eexists].
  f_equal. by rewrite !sub_class_app.
Qed.

Lemma repository_suffix_collision_witness :
  repository_suffix {| _path := "zope" ++ "." ++ "interface" ++ "-" ++ "4.4.2-py3-none-any.whl" |}
  = repository_suffix {| _path := "zope" ++ "_" ++ "interface" ++ "-" ++ "4.4.2-py3-none-any.whl" |}.
Proof.
  by apply (repository_suffix_collision "zope" "interface" "4.4.2-py3-none-any.whl").
Defined.

(** ** Metadata *)

Section MetadataErrors.

Context (json_loads : string → option Metadata).
Context (decode_utf8 : string → option string).

(** X6: how [metadata] fails: FileNotFoundError when there is no file at
    the path, BadZipFile when the file is no archive, IndexError when the
    archive opens and the basename has no hyphen, KeyError when neither
    [metadata.json] nor [METADATA] is a member; and an error of [metadata]
    is the error of [name], [extras] and [dependencies]. *)
Theorem metadata_failures (w : World) (self : Wheel) :
  (files w !! path self = None →
     metadata json_loads decode_utf8 w self = Raise FileNotFoundError)
  ∧ (∀ f bytes, files w !! path self = Some f → st_content f = Data bytes →
       metadata json_loads decode_utf8 w self = Raise BadZipFile)
  ∧ (∀ whl, ZipFile_open w (path self) = Ok whl →
       free_of "-" (basename self) = true →
       metadata json_loads decode_utf8 w self = Raise IndexError)
  ∧ (∀ whl dist_info,
       ZipFile_open w (path self) = Ok whl → _dist_info self = Ok dist_info →
       getinfo whl (dist_info ++ "/metadata.json") = None →
       getinfo whl (dist_info ++ "/METADATA") = None →
       metadata json_loads decode_utf8 w self = Raise KeyError)
  ∧ (∀ e, metadata json_loads decode_utf8 w self = Raise e →
       name json_loads decode_utf8 w self = Raise e
       ∧ extras json_loads decode_utf8 w self = Raise e
       ∧ ∀ ev extra, dependencies json_loads decode_utf8 ev w self extra = Raise e).
Proof.
  split; [|split; [|split; [|split]]].
  - intros Hnone. unfold metadata, ZipFile_open. by rewrite Hnone.
  - intros f bytes Hf Hdata. unfold metadata, ZipFile_open. by rewrite Hf, Hdata.
  - intros whl Hwhl Hfree. unfold metadata. rewrite Hwhl, bind_Ok.
    destruct (dist_info_no_hyphen self Hfree) as (_ & -> & _). done.
  - intros whl dist_info Hwhl Hdi Hrich Hflat.
    rewrite (metadata_flat _ _ _ _ _ _ Hwhl Hdi Hrich).
    apply zip_open_KeyError in Hflat. by rewrite Hflat.
  - intros e He. unfold name, extras, dependencies. by rewrite He.
Qed.

(** X7: a wheel that has the flat form only has a name and nothing else:
    when [metadata] returns on it, the record is the one-key record of the
    flat form, [extras] is empty, and [dependencies] is empty for every
    requested extra, the marker evaluator not being asked. *)
Theorem flat_form_has_no_dependencies w self whl dist_info md :
  ZipFile_open w (path self) = Ok whl → _dist_info self = Ok dist_info →
  getinfo whl (dist_info ++ "/metadata.json") = None →
  metadata json_loads decode_utf8 w self = Ok md →
  (∃ g, md = flat_record g)
  ∧ extras json_loads decode_utf8 w self = Ok []
  ∧ ∀ ev extra, dependencies json_loads decode_utf8 ev w self extra = Ok [].
Proof.
  intros Hwhl Hdi Hrich Hmd.
  assert (∃ g, md = flat_record g) as [g ->].
  { rewrite (metadata_flat _ _ _ _ _ _ Hwhl Hdi Hrich) in Hmd.
    destruct (zip_open whl _) as [f|]; [|done]. rewrite bind_Ok in Hmd.
    destruct (zip_read f) as [raw|]; [|done]. rewrite bind_Ok in Hmd.
    destruct (decode decode_utf8 raw) as [text|]; [|done]. rewrite bind_Ok in Hmd.
    unfold _parse_metadata in Hmd.
    destruct (name_pattern_search text) as [g|]; [|done].
    injection Hmd as <-. by exists g. }
  split; [by exists g|]. unfold extras, dependencies. rewrite Hmd, !bind_Ok.
  split; [done|]. intros ev extra. unfold dependencies_of. simpl.
  by rewrite sorted_empty.
Qed.

End MetadataErrors.

Lemma metadata_failures_witness :
  files Example.world !! path {| _path := "wheels/missing-1.0-py3-none-any.whl" |} = None
  ∧ metadata Example.json_loads Example.decode_utf8 Example.world
      {| _path := "wheels/missing-1.0-py3-none-any.whl" |}
    = Raise FileNotFoundError.
Proof.
  split; [reflexivity|].
  by apply (proj1 (metadata_failures Example.json_loads Example.decode_utf8
                     Example.world
                     {| _path := "wheels/missing-1.0-py3-none-any.whl" |})).
Defined.

Lemma flat_form_has_no_dependencies_witness :
  metadata Example.json_loads Example.decode_utf8 Example.world Example.flat_wheel
  = Ok (flat_record "other")
  ∧ dependencies Example.json_loads Example.decode_utf8 (λ _, Raise SyntaxError)
      Example.world Example.flat_wheel (Some "test") = Ok [].
Proof.
  assert (metadata Example.json_loads Example.decode_utf8 Example.world
            Example.flat_wheel = Ok (flat_record "other")) as Hmd by (by vm_compute).
  split; [exact Hmd|].
  by apply (flat_form_has_no_dependencies Example.json_loads Example.decode_utf8
              Example.world Example.flat_wheel Example.flat_whl
              "flat-2.0.dist-info" (flat_record "other")).
Defined.

(** X8: the flat decoder strips nothing: from a text that begins with
    [Name: ], a string without newline and then a newline or the end, the
    name is that string as it stands, empty or with its trailing blanks or
    carriage return. *)
Theorem parse_metadata_round_trip (g rest : string) :
  free_of newline g = true →
  _parse_metadata ("Name: " ++ g ++ String newline rest) = Ok (flat_record g)
  ∧ _parse_metadata ("Name: " ++ g) = Ok (flat_record g).
Proof.
  intros Hg. split.
  - apply (parse_metadata_leftmost "" g (String newline rest)).
    + split; [by eexists|]. intros; simpl; lia.
    + split; [done|]. right. by eexists _, _.
  - rewrite <- (app_empty_r g) at 1.
    apply (parse_metadata_leftmost "" g "").
    + split; [by eexists|]. intros; simpl; lia.
    + split; [done|]. by left.
Qed.

Lemma parse_metadata_round_trip_witness :
  _parse_metadata ("Name: " ++ String.append "somepkg" (String (Ascii.ascii_of_nat 13) "")
                   ++ String newline "Version: 1.0")
  = Ok (flat_record (String.append "somepkg" (String (Ascii.ascii_of_nat 13) ""))).
Proof.
  by apply (parse_metadata_round_trip
              (String.append "somepkg" (String (Ascii.ascii_of_nat 13) "")) "Version: 1.0").
Defined.

(** ** Dependencies *)

Lemma for_each_filter {A S} (step : S → A → result S) (P : A → Prop)
    `{∀ x, Decision (P x)} l s :
  (∀ x s, ¬ P x → step s x = Ok s) →
  for_each step (filter P l) s = for_each step l s.
Proof.
  intros Hskip. revert s. induction l as [|x l IH]; intros s; [done|].
  rewrite filter_cons. destruct (decide (P x)) as [Hx|Hx]; simpl.
  - destruct (step s x) as [s'|e]; [|done]. by rewrite !bind_Ok.
  - by rewrite (Hskip _ _ Hx), bind_Ok.
Qed.

Section DependencyMore.

Context (ev : string → result bool).

Implicit Types (g : RequirementGroup) (extra : option string) (s : gset string).

Lemma group_selected_Ok_evaluable extra g b :
  group_selected ev extra g = Ok b → marker_evaluable ev extra g.
Proof.
  intros Hsel Hextra m Hm Hne. rewrite group_selected_same in Hsel by done.
  unfold marker_excludes in Hsel. rewrite Hm in Hsel.
  apply str_truthy_ne in Hne. rewrite Hne in Hsel.
  destruct (ev m) as [b'|]; [by exists b'|done].
Qed.

Lemma for_each_Ok_evaluable extra groups s s' :
  for_each (requirement_step ev extra) groups s = Ok s' →
  Forall (marker_evaluable ev extra) groups.
Proof.
  revert s. induction groups as [|g groups IH]; intros s; [by constructor|].
  simpl. destruct (group_selected ev extra g) as [[]|e] eqn:Hsel.
  - rewrite (requirement_step_selected _ _ _ _ Hsel), bind_Ok. intros Hrest.
    constructor; [by eapply group_selected_Ok_evaluable|by eapply IH].
  - rewrite (requirement_step_skipped _ _ _ _ Hsel), bind_Ok. intros Hrest.
    constructor; [by eapply group_selected_Ok_evaluable|by eapply IH].
  - by rewrite (requirement_step_raise _ _ _ _ _ Hsel).
Qed.

(** X9: [dependencies] returns on a record exactly when every marker that
    the loop comes to evaluate, the non-empty marker of a group of the
    requested extra, has a value. *)
Theorem dependencies_return_iff md extra :
  (∃ names, dependencies_of ev md extra = Ok names)
  ↔ Forall (marker_evaluable ev extra) (get_default (md_run_requires md) []).
Proof.
  unfold dependencies_of. split.
  - intros [names Hnames].
    destruct (for_each _ _ _) as [s'|e] eqn:Hloop; [|done].
    by eapply for_each_Ok_evaluable.
  - intros Hev.
    destruct (for_each_requirement_step ev extra _ ∅ Hev) as (s' & -> & _).
    by eexists.
Qed.

(** X10: the order of the groups and their repetition do not matter: two
    records with the same groups, in any order and any number of times,
    have the same dependencies when the markers of the first have values. *)
Theorem dependencies_order_independent md md' extra :
  (∀ g, g ∈ get_default (md_run_requires md) []
        ↔ g ∈ get_default (md_run_requires md') []) →
  Forall (marker_evaluable ev extra) (get_default (md_run_requires md) []) →
  ∃ names,
    dependencies_of ev md extra = Ok names
    ∧ dependencies_of ev md' extra = Ok names.
Proof.
  intros Hsame Hev.
  assert (Forall (marker_evaluable ev extra) (get_default (md_run_requires md') []))
    as Hev'.
  { rewrite Forall_forall in *. intros g Hg. apply Hev. by apply Hsame. }
  unfold dependencies_of.
  destruct (for_each_requirement_step ev extra _ ∅ Hev) as (s1 & -> & Hs1).
  destruct (for_each_requirement_step ev extra _ ∅ Hev') as (s2 & -> & Hs2).
  assert (s1 = s2) as ->.
  { apply set_eq. intros x. rewrite Hs1, Hs2. split.
    - intros [?|(g & Hg & ?)]; [by left|right]. exists g. by rewrite <- Hsame.
    - intros [?|(g & Hg & ?)]; [by left|right]. exists g. by rewrite Hsame. }
  by eexists.
Qed.

(** X11: a group that the guards skip, for its extra or for a marker that
    is false, can be taken out of the record: the result is the same, an
    error included. *)
Theorem skipped_group_removable md (before after : list RequirementGroup) g extra :
  group_selected ev extra g = Ok false →
  dependencies_of ev (with_groups md (before ++ g :: after)) extra
  = dependencies_of ev (with_groups md (before ++ after)) extra.
Proof.
  intros Hsel. unfold dependencies_of. simpl. rewrite !for_each_app.
  destruct (for_each _ before ∅) as [s|e]; [|done]. rewrite !bind_Ok. simpl.
  by rewrite (requirement_step_skipped _ _ _ _ Hsel), bind_Ok.
Qed.

(** X12: the groups of other extras never matter, whatever their markers:
    the dependencies for an extra are those of the record reduced to the
    groups of that extra, an error included. *)
Theorem dependencies_of_own_extra md groups extra :
  dependencies_of ev (with_groups md groups) extra
  = dependencies_of ev
      (with_groups md (filter (λ g, rg_extra g = extra) groups)) extra.
Proof.
  unfold dependencies_of. simpl. rewrite for_each_filter; [done|].
  intros g s Hne. by apply requirement_step_skipped, group_selected_other.
Qed.

(** X13: no name that [dependencies] returns contains a space, a
    comparison sign or a parenthesis. *)
Theorem dependency_names_clean md extra names :
  dependencies_of ev md extra = Ok names →
  Forall (λ x, Str.all (λ c, negb (qualifier_char c)) x = true) names.
Proof.
  intros Hnames. pose proof Hnames as Hloop. unfold dependencies_of in Hloop.
  destruct (for_each _ _ _) as [s'|e] eqn:Hs'; [|done].
  rewrite bind_Ok in Hloop. injection Hloop as <-.
  destruct (for_each_requirement_step ev extra _ ∅
              (for_each_Ok_evaluable _ _ _ _ Hs')) as (s'' & Hs'' & Hx).
  rewrite Hs' in Hs''. injection Hs'' as <-.
  apply Forall_forall. intros x Hin. rewrite sorted_elem_of in Hin.
  apply Hx in Hin as [[]%not_elem_of_empty|(g & _ & _ & Hg)].
  unfold group_names in Hg. rewrite elem_of_list_to_set, list_elem_of_fmap in Hg.
  destruct Hg as (entry & -> & _). apply take_until_clean.
Qed.

End DependencyMore.

Lemma dependencies_order_independent_witness :
  ∃ names,
    dependencies_of Example.evaluate_marker Example.record None = Ok names
    ∧ dependencies_of Example.evaluate_marker
        (with_groups Example.record
           (reverse (get_default (md_run_requires Example.record) []))) None
      = Ok names.
Proof.
  apply (dependencies_order_independent Example.evaluate_marker Example.record
           (with_groups Example.record
              (reverse (get_default (md_run_requires Example.record) []))) None).
  - intros g. simpl. by rewrite elem_of_reverse.
  - exact example_evaluable.
Defined.

Lemma skipped_group_removable_witness :
  group_selected Example.evaluate_marker None Example.on_windows = Ok false
  ∧ dependencies_of Example.evaluate_marker
      (with_groups Example.record
         ([Example.base; Example.on_python3]
          ++ Example.on_windows :: [Example.empty_marker; Example.testing])) None
    = dependencies_of Example.evaluate_marker
        (with_groups Example.record
           ([Example.base; Example.on_python3]
            ++ [Example.empty_marker; Example.testing])) None.
Proof.
  split; [reflexivity|].
  by apply (skipped_group_removable Example.evaluate_marker Example.record
              [Example.base; Example.on_python3]
              [Example.empty_marker; Example.testing] Example.on_windows None).
Defined.

Lemma dependency_names_clean_witness :
  dependencies_of Example.evaluate_marker Example.record None
  = Ok ["attrs"; "bar"; "foo"; "six"]
  ∧ Forall (λ x, Str.all (λ c, negb (qualifier_char c)) x = true)
      ["attrs"; "bar"; "foo"; "six"].
Proof.
  assert (dependencies_of Example.evaluate_marker Example.record None
          = Ok ["attrs"; "bar"; "foo"; "six"]) as Hdeps by (by vm_compute).
  split; [exact Hdeps|].
  exact (dependency_names_clean Example.evaluate_marker Example.record None _ Hdeps).
Defined.

(** ** Expansion *)

Lemma world_eta w : {| files := files w; umask := umask w |} = w.
Proof. by destruct w. Qed.

Lemma land_low_idemp mask : Z.land (Z.land mask 511) 511 = Z.land mask 511.
Proof. by rewrite <- Z.land_assoc. Qed.

Lemma land_low_small mask : 0 ≤ mask < 512 → Z.land mask 511 = mask.
Proof.
  intros Hmask. change 511 with (Z.ones 9). rewrite Z.land_ones by lia.
  apply Z.mod_small. change (2 ^ 9) with 512. lia.
Qed.





(** X14: [current_umask] returns the umask of the process and puts it back:
    the files are untouched, the umask afterwards is the old one cut to its
    nine permission bits, so a process whose umask has only such bits is
    left as it was. *)
Theorem current_umask_restores (w : World) :
  (current_umask w).1 = umask w
  ∧ files (current_umask w).2 = files w
  ∧ umask (current_umask w).2 = Z.land (umask w) 511
  ∧ (0 ≤ umask w < 512 → (current_umask w).2 = w).
Proof.
  rewrite current_umask_value. simpl. repeat split.
  intros Hmask. unfold set_umask. rewrite land_low_small by done. apply world_eta.
Qed.

Lemma current_umask_restores_witness :
  0 ≤ umask Example.world < 512 ∧ (current_umask Example.world).2 = Example.world.
Proof.
  split; [by vm_compute|].
  apply (current_umask_restores Example.world). by vm_compute.
Defined.



Lemma exist_or_missing (fs : gmap string File) (l : list string) :
  Forall (λ p, is_Some (fs !! p)) l ∨ Exists (λ p, fs !! p = None) l.
Proof.
  induction l as [|p l [IH|IH]].
  - left. constructor.
  - destruct (fs !! p) as [f|] eqn:Hp.
    + left. constructor; [by rewrite Hp|done].
    + right. by apply Exists_cons_hd.
  - right. by apply Exists_cons_tl.
Qed.

Lemma executable_paths_cons directory i infos :
  executable_paths directory (i :: infos) =
    if stored_executable i
    then extracted_path directory i :: executable_paths directory infos
    else executable_paths directory infos.
Proof.
  unfold executable_paths. rewrite filter_cons.
  destruct (stored_executable i); by case_decide.
Qed.

(** The loop stops at the first file it names that is not there. *)
Lemma for_each_expand_step_missing directory infos w1 :
  Exists (λ p, files w1 !! p = None) (executable_paths directory infos) →
  for_each (expand_step directory) infos w1 = Raise FileNotFoundError.
Proof.
  revert w1. induction infos as [|i infos IH]; intros w1 Hmiss.
  - by apply Exists_nil in Hmiss.
  - simpl. rewrite expand_step_cases. rewrite executable_paths_cons in Hmiss.
    destruct (stored_executable i); [|rewrite bind_Ok; by apply IH].
    rewrite set_mode_chmod.
    destruct (files w1 !! extracted_path directory i) as [f|] eqn:Hf; [|done].
    rewrite bind_Ok. apply IH. apply Exists_cons in Hmiss as [Hhere|Hrest]; [congruence|].
    eapply Exists_impl; [exact Hrest|]. intros p Hp. simpl.
    rewrite lookup_insert_ne; [done|]. intros <-. congruence.
Qed.

Lemma for_each_expand_step_umask directory infos w1 w2 :
  for_each (expand_step directory) infos w1 = Ok w2 →
  umask w2 = if decide (executable_paths directory infos = [])
             then umask w1 else Z.land (umask w1) 511.
Proof.
  revert w1. induction infos as [|i infos IH]; intros w1; simpl.
  - by intros [= ->].
  - rewrite expand_step_cases, executable_paths_cons.
    destruct (stored_executable i); [|rewrite bind_Ok; apply IH].
    rewrite set_mode_chmod.
    destruct (files w1 !! extracted_path directory i) as [f|]; [|done].
    rewrite bind_Ok. intros ->%IH. simpl. rewrite land_low_idemp.
    by destruct (decide (executable_paths directory infos = [])).
Qed.

Lemma for_each_expand_step_exists directory infos w1 w2 :
  for_each (expand_step directory) infos w1 = Ok w2 →
  Forall (λ p, is_Some (files w1 !! p)) (executable_paths directory infos).
Proof.
  intros Hloop.
  destruct (exist_or_missing (files w1) (executable_paths directory infos))
    as [Hall|Hmiss]; [done|].
  apply for_each_expand_step_missing in Hmiss. congruence.
Qed.

(** The files after the loop, when it returns. *)
Lemma for_each_expand_step_files directory infos w1 w2 :
  for_each (expand_step directory) infos w1 = Ok w2 →
  ∀ p, files w2 !! p =
       if decide (p ∈ executable_paths directory infos)
       then with_mode (executable_mode (umask w1)) <$> files w1 !! p
       else files w1 !! p.
Proof.
  intros Hloop.
  destruct (for_each_expand_step directory infos w1
              (for_each_expand_step_exists _ _ _ _ Hloop)) as (w2' & Hw2' & _ & Hfiles).
  rewrite Hloop in Hw2'. by injection Hw2' as <-.
Qed.

Section ExpandMore.

Context (extractall : ZipFile → string → World → result World).


(** X17: what [expand] adds to the extraction is modes only: when it
    returns, the files are those the extraction left, each with its
    content, and the umask of the process is as the extraction left it, cut
    to its nine permission bits if some mode was set. *)
Theorem expand_keeps_files w self directory whl w1 w2 :
  ZipFile_open w (path self) = Ok whl →
  extractall whl directory w = Ok w1 →
  expand extractall w self directory = Ok w2 →
  dom (files w2) = dom (files w1)
  ∧ (∀ p, st_content <$> files w2 !! p = st_content <$> files w1 !! p)
  ∧ (umask w2 = umask w1 ∨ umask w2 = Z.land (umask w1) 511)
  ∧ (0 ≤ umask w1 < 512 → umask w2 = umask w1).
Proof.
  intros Hwhl Hextract. unfold expand.
  rewrite Hwhl, bind_Ok, Hextract, bind_Ok. intros Hloop.
  pose proof (for_each_expand_step_files _ _ _ _ Hloop) as Hfiles.
  pose proof (for_each_expand_step_umask _ _ _ _ Hloop) as Hmask.
  assert (∀ p, st_content <$> files w2 !! p = st_content <$> files w1 !! p) as Hcontent.
  { intros p. rewrite Hfiles. destruct (decide (p ∈ _)); [|done].
    by destruct (files w1 !! p). }
  split; [|split; [done|split]].
  - apply set_eq. intros p. rewrite !elem_of_dom, <- !(fmap_is_Some st_content).
    by rewrite Hcontent.
  - destruct (decide _); auto.
  - intros Hsmall. rewrite Hmask. destruct (decide _); [done|].
    by apply land_low_small.
Qed.

(** X18: when no member is a plain file with regular mode and a stored
    execute bit, [expand] is the extraction and nothing more; that is so in
    particular when no member carries a Unix mode. *)
Theorem expand_without_executables w self directory whl :
  ZipFile_open w (path self) = Ok whl →
  (Forall (λ i, stored_executable i = false) (infolist whl) →
   expand extractall w self directory = extractall whl directory w)
  ∧ (Forall no_unix_mode (infolist whl) →
     expand extractall w self directory = extractall whl directory w).
Proof.
  intros Hwhl.
  assert (Forall (λ i, stored_executable i = false) (infolist whl) →
          expand extractall w self directory = extractall whl directory w) as Hplain.
  { intros Hnone. unfold expand. rewrite Hwhl, bind_Ok.
    destruct (extractall whl directory w) as [w1|e]; [|done]. rewrite bind_Ok.
    apply for_each_skip. eapply Forall_impl; [exact Hnone|].
    intros i Hi s. simpl in Hi. by rewrite expand_step_cases, Hi. }
  split; [done|]. intros Hmodes. apply Hplain.
  eapply Forall_impl; [exact Hmodes|]. intros i [Hlo Hhi].
  unfold stored_executable, stored_mode.
  rewrite Z.shiftr_div_pow2 by lia. change (2 ^ 16) with 65536.
  rewrite Z.div_small by lia. by rewrite andb_false_r.
Qed.

End ExpandMore.

(** X19: the loop of [expand] can be run again: from the state in which it
    returned it returns that very state. *)
Theorem expand_loop_idempotent directory infos w1 w2 :
  for_each (expand_step directory) infos w1 = Ok w2 →
  for_each (expand_step directory) infos w2 = Ok w2.
Proof.
  intros Hloop.
  pose proof (for_each_expand_step_files _ _ _ _ Hloop) as Hfiles.
  pose proof (for_each_expand_step_umask _ _ _ _ Hloop) as Hmask.
  pose proof (for_each_expand_step_exists _ _ _ _ Hloop) as Hexist.
  assert (Forall (λ p, is_Some (files w2 !! p)) (executable_paths directory infos))
    as Hexist2.
  { eapply Forall_impl; [exact Hexist|]. intros p [f Hf]. simpl.
    rewrite Hfiles, Hf. destruct (decide (p ∈ _)); simpl; by eexists. }
  destruct (for_each_expand_step _ _ _ Hexist2) as (w3 & Hw3 & _ & Hfiles3).
  rewrite Hw3. f_equal.
  pose proof (for_each_expand_step_umask _ _ _ _ Hw3) as Hmask3.
  assert (executable_mode (umask w2) = executable_mode (umask w1)) as Hmode.
  { rewrite Hmask. destruct (decide (_ = [])); [done|]. apply executable_mode_low. }
  rewrite <- (world_eta w3), <- (world_eta w2). f_equal.
  - apply map_eq. intros p. rewrite Hfiles3, Hmode, Hfiles.
    destruct (decide (p ∈ _)); [|done]. by destruct (files w1 !! p).
  - rewrite Hmask3, Hmask. destruct (decide (_ = [])); [done|]. apply land_low_idemp.
Qed.

Lemma example_wheel_opens : ZipFile_open Example.world (path Example.wheel) = Ok Example.whl.
Proof. by vm_compute. Qed.


Lemma expand_keeps_files_witness :
  ∃ w2,
    expand Example.extractall Example.world Example.wheel "out" = Ok w2
    ∧ umask w2 = umask Example.world.
Proof.
  destruct (expand Example.extractall Example.world Example.wheel "out")
    as [w2|e] eqn:Hexpand; [|by vm_compute in Hexpand].
  exists w2. split; [done|].
  destruct (expand_keeps_files Example.extractall Example.world Example.wheel "out"
              Example.whl _ w2 example_wheel_opens eq_refl Hexpand)
    as (_ & _ & _ & Hmask).
  apply Hmask. by vm_compute.
Defined.

Lemma expand_without_executables_witness :
  ZipFile_open Example.world (path Example.flat_wheel) = Ok Example.flat_whl
  ∧ expand Example.extractall Example.world Example.flat_wheel "out"
    = Example.extractall Example.flat_whl "out" Example.world.
Proof.
  assert (ZipFile_open Example.world (path Example.flat_wheel) = Ok Example.flat_whl)
    as Hwhl by (by vm_compute).
  split; [exact Hwhl|].
  apply (proj1 (expand_without_executables Example.extractall Example.world
                  Example.flat_wheel "out" Example.flat_whl Hwhl)).
  by repeat constructor.
Defined.

Lemma expand_loop_idempotent_witness :
  ∃ w1 w2,
    Example.extractall Example.whl "out" Example.world = Ok w1
    ∧ for_each (expand_step "out") (infolist Example.whl) w1 = Ok w2
    ∧ for_each (expand_step "out") (infolist Example.whl) w2 = Ok w2.
Proof.
  set (w1 := match Example.extractall Example.whl "out" Example.world with
             | Ok w => w
             | Raise _ => Example.world
             end).
  destruct (for_each (expand_step "out") (infolist Example.whl) w1) as [w2|e] eqn:Hloop;
    [|by vm_compute in Hloop].
  exists w1, w2. split; [reflexivity|]. split; [exact Hloop|].
  exact (expand_loop_idempotent _ _ _ _ Hloop).
Defined.

(** ** The BUILD file *)

Lemma take_until_twice (p q : ascii → bool) s :
  Str.take_until p (Str.take_until q s) = Str.take_until (λ c, q c || p c) s.
Proof.
  induction s as [|c s IH]; [done|]. simpl.
  destruct (q c); [done|]. simpl. destruct (p c); [done|]. by rewrite IH.
Qed.

Lemma requirement_label_value d :
  requirement_label d
  = Ok ("requirement(" ++ quoted (Str.take_until (Str.is_char "[") d) ++ ")").
Proof.
  unfold requirement_label.
  by destruct (split_by_head (Str.is_char "[") d) as [t ->].
Qed.

Lemma map_result_Ok {A B} (f : A → result B) (g : A → B) l :
  (∀ x, f x = Ok (g x)) → map_result f l = Ok (g <$> l).
Proof.
  intros Hf. induction l as [|x l IH]; [done|].
  simpl. by rewrite Hf, bind_Ok, IH.
Qed.

Lemma map_result_return {A B} (f : A → result B) l :
  (∃ ys, map_result f l = Ok ys) ↔ Forall (λ x, ∃ y, f x = Ok y) l.
Proof.
  induction l as [|x l IH]; simpl.
  - split; [by constructor|by eexists].
  - rewrite Forall_cons, <- IH. split.
    + intros [ys Hys]. destruct (f x) as [y|]; [|done]. rewrite bind_Ok in Hys.
      destruct (map_result f l) as [ys'|]; [|done]. by split; eexists.
    + intros [[y ->] [ys ->]]. by eexists.
Qed.

Lemma requirement_labels_value deps :
  ∃ text, requirement_labels deps = Ok text.
Proof.
  unfold requirement_labels.
  rewrite (map_result_Ok _
    (λ d, "requirement(" ++ quoted (Str.take_until (Str.is_char "[") d) ++ ")"))
    by apply requirement_label_value.
  by eexists.
Qed.

(** X20: from a requirement string to its label in the BUILD file: the
    name between the quotes is the string cut at its first character among
    space, [<], [>], [=], the parentheses and the opening bracket, so it
    has none of them; the label never fails. *)
Theorem requirement_label_of_entry (entry : string) :
  requirement_label (bare_name entry)
  = Ok ("requirement(" ++ quoted (Str.take_until label_stop entry) ++ ")")
  ∧ Str.all (λ c, negb (label_stop c)) (Str.take_until label_stop entry) = true.
Proof.
  split; [|apply take_until_clean].
  rewrite requirement_label_value. unfold bare_name. by rewrite take_until_twice.
Qed.

Section BuildFacts.

Context (json_loads : string → option Metadata).
Context (decode_utf8 : string → option string).
Context (ev : string → result bool).

(** X21: the set of [dependencies] is made before the brackets are cut, so
    one project can come twice in the BUILD file: a name and the same name
    with extras in brackets are both returned, and have the same label. *)
Theorem bracket_variants_share_label (n x : string) (md : Metadata) :
  Str.all (λ c, negb (label_stop c)) n = true →
  Str.all (λ c, negb (qualifier_char c)) x = true →
  md_run_requires md
  = Some [ {| rg_extra := None; rg_environment := None;
              rg_requires := Some [n ++ "[" ++ x ++ "]"; n] |} ] →
  ∃ names,
    dependencies_of ev md None = Ok names
    ∧ n ∈ names ∧ n ++ "[" ++ x ++ "]" ∈ names
    ∧ n ≠ n ++ "[" ++ x ++ "]"
    ∧ requirement_label (n ++ "[" ++ x ++ "]") = requirement_label n.
Proof.
  intros Hn Hx Hmd.
  assert (Str.all (λ c, negb (qualifier_char c)) n = true
          ∧ Str.all (λ c, negb (Str.is_char "[" c)) n = true) as [Hnq Hnb].
  { clear Hmd. induction n as [|c n IH]; [done|]. cbn [Str.all] in *.
    apply andb_true_iff in Hn as [Hc Hn]. destruct (IH Hn) as [IH1 IH2].
    unfold label_stop in Hc. apply negb_true_iff, orb_false_iff in Hc as [Hq Hb].
    by rewrite IH1, IH2, Hq, Hb. }
  assert (bare_name n = n) as Hbn.
  { unfold bare_name. rewrite <- (app_empty_r n) at 1.
    rewrite take_until_app; auto. }
  assert (bare_name (n ++ "[" ++ x ++ "]") = n ++ "[" ++ x ++ "]") as Hbx.
  { unfold bare_name. rewrite <- (app_empty_r (n ++ "[" ++ x ++ "]")) at 1.
    rewrite take_until_app; auto. by rewrite !all_app, Hnq, Hx. }
  unfold dependencies_of. rewrite Hmd.
  change (get_default (Some ?l) []) with l. cbn [for_each].
  rewrite (requirement_step_selected ev None ∅), !bind_Ok
    by (by apply group_selected_true).
  unfold group_names. cbn [rg_requires get_default fmap list_fmap list_to_set].
  rewrite Hbn, Hbx.
  eexists. split; [done|]. rewrite !sorted_elem_of.
  rewrite !elem_of_union, !elem_of_singleton.
  split; [auto|]. split; [auto|]. split.
  - intros Heq. apply (f_equal String.length) in Heq.
    rewrite !length_app in Heq. simpl in Heq. lia.
  - rewrite !requirement_label_value. do 3 f_equal.
    rewrite <- (app_empty_r n) at 2.
    rewrite !(take_until_app (Str.is_char "[")); auto.
    right. by eexists _, _.
Qed.

(** X22: the text of the BUILD file is there exactly when [dependencies]
    returns without extra and for every requested extra; the labels add no
    failure. *)
Theorem build_text_returns_iff (args : Args) (w : World) :
  let whl := {| _path := arg_whl args |} in
  (∃ text, build_text json_loads decode_utf8 ev args w = Ok text)
  ↔ (∃ deps, dependencies json_loads decode_utf8 ev w whl None = Ok deps)
    ∧ Forall (λ extra,
                ∃ deps, dependencies json_loads decode_utf8 ev w whl (Some extra)
                        = Ok deps)
        (get_default (arg_extras args) []).
Proof.
  intros whl. unfold build_text. fold whl.
  assert (∀ extra,
    (∃ t, extra_target_of json_loads decode_utf8 ev w whl extra = Ok t)
    ↔ ∃ deps, dependencies json_loads decode_utf8 ev w whl (Some extra) = Ok deps)
    as Htarget.
  { intros extra. unfold extra_target_of.
    destruct (dependencies _ _ _ _ _ (Some extra)) as [deps|e].
    - rewrite bind_Ok. destruct (requirement_labels_value deps) as [text ->].
      split; intros _; by eexists.
    - split; intros [? ?]; done. }
  destruct (dependencies _ _ _ _ _ None) as [deps|e].
  - rewrite bind_Ok. destruct (requirement_labels_value deps) as [text ->].
    rewrite bind_Ok. split.
    + intros [t Ht]. split; [by eexists|].
      destruct (map_result _ _) as [targets|] eqn:Hmap; [|done].
      assert (Forall (λ extra, ∃ t, extra_target_of json_loads decode_utf8 ev w whl
                                      extra = Ok t)
                (get_default (arg_extras args) [])) as Hall
        by (apply map_result_return; by exists targets).
      eapply Forall_impl; [exact Hall|]. intros extra. apply Htarget.
    + intros [_ Hall].
      assert (∃ targets, map_result (extra_target_of json_loads decode_utf8 ev w whl)
                (get_default (arg_extras args) []) = Ok targets) as [targets ->].
      { apply map_result_return. eapply Forall_impl; [exact Hall|].
        intros extra. apply Htarget. }
      by eexists.
  - split; [by intros [? ?]|by intros [[? ?] _]].
Qed.

End BuildFacts.

Lemma bracket_variants_share_label_witness :
  ∃ names,
    dependencies_of Example.evaluate_marker
      {| md_name := None;
         md_run_requires :=
           Some [ {| rg_extra := None; rg_environment := None;
                     rg_requires := Some ["requests" ++ "[" ++ "security" ++ "]";
                                          "requests"] |} ];
         md_extras := None |} None = Ok names
    ∧ "requests" ∈ names ∧ "requests" ++ "[" ++ "security" ++ "]" ∈ names.
Proof.
  destruct (bracket_variants_share_label Example.evaluate_marker "requests" "security"
              {| md_name := None;
                 md_run_requires :=
                   Some [ {| rg_extra := None; rg_environment := None;
                             rg_requires := Some ["requests" ++ "[" ++ "security" ++ "]";
                                                  "requests"] |} ];
                 md_extras := None |} eq_refl eq_refl eq_refl)
    as (names & Hnames & Hn & Hx & _).
  exists names. split; [exact Hnames|]. split; [exact Hn|exact Hx].
Defined.
